(** * request-middleware: the composition and dispatch engine

    A verification development for [src/engine/compose.ts]
    ([composeMiddlewares] and the closures [composed] and [dispatch] it
    returns) and for [src/engine/middlewareEngine.ts] (the class
    [MiddlewareEngine]: constructor, [use], [getMiddlewares], [dispatch]).

    - JavaScript arrays are objects with identity: they live in a heap of
      arrays and are passed around as references.  The registry of an
      engine is one such array, and so is the array [composed] closes over.
    - Middlewares are function values; a function value is a reference into
      a table of handler bodies.  A handler body is a tree of the things a
      handler can do: act on the world (the context object and the arrays),
      branch on it, await its continuation, catch what a block raises, throw,
      return.  The engine's own code is written as Rocq functions over that
      state.
    - [await e] is written as a call of [e]: an asynchronous function that
      throws returns a rejected promise, which the awaiting caller sees as
      a throw.  A handler reaches its continuation by awaiting it (or by
      returning its promise, which is the same); a continuation that is
      called and left running unawaited is outside this model.
    - The nesting of [dispatch] over a registry that keeps growing has no
      bound of its own (a JavaScript engine ends it when the call stack is
      exhausted), so [dispatch] takes fuel, the depth of nesting it is
      allowed.  A result that says what a run produces is
      stated for all amounts of fuel from a bound on; a result about what
      a run can have done is stated for every run, settled or cut short.
    - Of the fetch adapter, the pure function [buildUrl] is covered; the
      parts of the platform it calls ([String], the serializer of
      [URLSearchParams]) are variables of its section. *)

From Stdlib Require Import ZArith String Ascii Lia Sorted.
From stdpp Require Import base list sorting.

(** ** Values, errors, outcomes *)

Definition fid := nat.
Definition loc := nat.

(** The JavaScript values the engine can be handed. *)
Inductive value : Type :=
| VUndefined
| VNull
| VBool (b : bool)
| VNum (n : Z)
| VStr (s : string)
| VFun (f : fid)
| VArr (l : loc).

(** [typeof v === 'function'] *)
Definition is_function (v : value) : bool :=
  match v with VFun _ => true | _ => false end.

(** [Array.isArray(v)] *)
Definition isArray (v : value) : bool :=
  match v with VArr _ => true | _ => false end.

(** JavaScript truthiness, as tested by [if (v)] and [!v]. *)
Definition truthy (v : value) : bool :=
  match v with
  | VUndefined | VNull => false
  | VBool b => b
  | VNum n => negb (n =? 0)%Z
  | VStr s => negb (String.eqb s EmptyString)
  | VFun _ | VArr _ => true
  end.

(** What can be thrown: [new TypeError(msg)], [new Error(msg)], or any
    value a handler chooses to throw. *)
Inductive exn : Type :=
| TypeError (msg : string)
| Error (msg : string)
| Thrown (v : value).

(** The result of running code from a state: it returns (a promise
    resolves), it throws (a promise rejects), or the fuel of the
    interpreter ran out.  Each comes with the state it happened in. *)
Inductive Outcome (S : Type) : Type :=
| Ok (s : S)
| Err (e : exn) (s : S)
| OutOfFuel (s : S).
Arguments Ok {S} s.
Arguments Err {S} e s.
Arguments OutOfFuel {S} s.

(** The state an outcome ends in. *)
Definition state_of {S} (o : Outcome S) : S :=
  match o with
  | Ok s | Err _ s | OutOfFuel s => s
  end.

(** The outcome is a return or a throw. *)
Definition settled {S} (o : Outcome S) : Prop :=
  match o with
  | Ok _ | Err _ _ => True
  | OutOfFuel _ => False
  end.

(** ** The world handlers live in *)

(** The context object of a dispatch (opaque to the engine) and the heap
    of arrays. *)
Record World (C : Type) : Type := mkWorld {
  ctx : C;
  heap : list (list value)
}.
Arguments mkWorld {C} ctx heap.
Arguments ctx {C} w.
Arguments heap {C} w.

(** The array a reference points to. *)
Definition deref {C} (w : World C) (l : loc) : list value :=
  default [] (heap w !! l).

(** In-place update of the array at [l]. *)
Definition store {C} (l : loc) (xs : list value) (w : World C) : World C :=
  mkWorld (ctx w) (<[l := xs]> (heap w)).

(** A new array: [[...xs]] or an array literal. *)
Definition alloc {C} (xs : list value) (w : World C) : loc * World C :=
  (length (heap w), mkWorld (ctx w) (heap w ++ [xs])).

Definition set_ctx {C} (f : C -> C) (w : World C) : World C :=
  mkWorld (f (ctx w)) (heap w).

(** [xs[i]]: [undefined] out of range. *)
Definition js_index (xs : list value) (i : Z) : value :=
  if (i <? 0)%Z then VUndefined else default VUndefined (xs !! Z.to_nat i).

(** ** Handler bodies *)

(** [N] is the type of continuations in scope: [unit] in a middleware
    [(ctx, next) => ...], [Empty_set] in a final handler [() => ...]. *)
Inductive Prog (C N : Type) : Type :=
| Return
| Throw (e : exn)
| Act (op : World C -> Outcome (World C)) (k : Prog C N)
| Branch (k : World C -> Prog C N)
| Next (n : N) (k : Prog C N)
| Try (body : Prog C N) (handler : exn -> Prog C N) (k : Prog C N).
Arguments Return {C N}.
Arguments Throw {C N} e.
Arguments Act {C N} op k.
Arguments Branch {C N} k.
Arguments Next {C N} n k.
Arguments Try {C N} body handler k.

(** [async (ctx, next) => { ... }] *)
Definition Middleware (C : Type) : Type := Prog C unit.
(** [async () => { ... }] *)
Definition FinalHandler (C : Type) : Type := Prog C Empty_set.

(** A statement that only touches the context object. *)
Definition Modify {C N} (f : C -> C) (k : Prog C N) : Prog C N :=
  Act (fun w => Ok (set_ctx f w)) k.

(** ** One execution of a composed chain *)

(** What the engine was observed to do: [dispatch(index)] was entered,
    [middleware(ctx, next)] was called, [finalHandler()] was called.  No
    definition reads the trace. *)
Inductive event : Type :=
| EvInvoke (index : Z)
| EvRun (index : Z) (f : fid)
| EvFinal (index : Z).

(** The state of one call of [composed]: the world, the local variable
    [currentIndex], and the trace. *)
Record Exec (C : Type) : Type := mkExec {
  world : World C;
  currentIndex : Z;
  trace : list event
}.
Arguments mkExec {C} world currentIndex trace.
Arguments world {C} e.
Arguments currentIndex {C} e.
Arguments trace {C} e.

Definition set_world {C} (w : World C) (s : Exec C) : Exec C :=
  mkExec w (currentIndex s) (trace s).
Definition set_currentIndex {C} (i : Z) (s : Exec C) : Exec C :=
  mkExec (world s) i (trace s).
Definition record {C} (ev : event) (s : Exec C) : Exec C :=
  mkExec (world s) (currentIndex s) (trace s ++ [ev]).

(** Running a handler body.  [next n] is what [await next()] does. *)
Fixpoint exec {C N} (next : N -> Exec C -> Outcome (Exec C))
    (p : Prog C N) (s : Exec C) : Outcome (Exec C) :=
  match p with
  | Return => Ok s
  | Throw e => Err e s
  | Act op k =>
      match op (world s) with
      | Ok w => exec next k (set_world w s)
      | Err e w => Err e (set_world w s)
      | OutOfFuel w => OutOfFuel (set_world w s)
      end
  | Branch k => exec next (k (world s)) s
  | Next n k =>
      match next n s with
      | Ok s' => exec next k s'
      | Err e s' => Err e s'
      | OutOfFuel s' => OutOfFuel s'
      end
  | Try body handler k =>
      match exec next body s with
      | Ok s' => exec next k s'
      | Err e s' =>
          match exec next (handler e) s' with
          | Ok s'' => exec next k s''
          | Err e' s'' => Err e' s''
          | OutOfFuel s'' => OutOfFuel s''
          end
      | OutOfFuel s' => OutOfFuel s'
      end
  end.

(** A final handler has no continuation to call. *)
Definition no_next {C} (n : Empty_set) : Exec C -> Outcome (Exec C) :=
  match n with end.

(** ** compose.ts *)

Module Compose.
Section Compose.
Context {C : Type} (code : fid -> Middleware C).

(** The closure [composed]: it captures the array reference and the
    final handler. *)
Record Composed : Type := mkComposed {
  c_middlewares : loc;
  c_finalHandler : option (FinalHandler C)
}.

(** The two checks throw before the closure exists. *)
Definition composeMiddlewares (w : World C) (middlewares : value)
    (finalHandler : option (FinalHandler C)) : exn + Composed :=
  match middlewares with
  | VArr l =>
      (* for (const middleware of middlewares)
           if (typeof middleware !== 'function') throw ... *)
      if forallb is_function (deref w l)
      then inr (mkComposed l finalHandler)
      else inl (TypeError "Middleware must be a function"%string)
  | _ =>
      (* if (!Array.isArray(middlewares)) throw ... *)
      inl (TypeError "Middlewares must be an array"%string)
  end.

(** [dispatch(index)], inside one call of [composed].  The array is read
    through its reference each time: [middlewares[index]] and
    [middlewares.length] are those of the moment. *)
Fixpoint dispatch (c : Composed) (fuel : nat) (index : Z) (s : Exec C)
    : Outcome (Exec C) :=
  match fuel with
  | O => OutOfFuel s
  | S fuel' =>
      let s := record (EvInvoke index) s in
      (* if (index <= currentIndex) throw new Error(...) *)
      if (index <=? currentIndex s)%Z
      then Err (Error "next() called multiple times"%string) s
      else
        (* currentIndex = index *)
        let s := set_currentIndex index s in
        (* const middleware = middlewares[index] *)
        let arr := deref (world s) (c_middlewares c) in
        let middleware := js_index arr index in
        (* if (index === middlewares.length) *)
        if (index =? Z.of_nat (length arr))%Z then
          (* if (finalHandler) await finalHandler(); return *)
          match c_finalHandler c with
          | Some finalHandler =>
              exec no_next finalHandler (record (EvFinal index) s)
          | None => Ok s
          end
        (* if (!middleware) return *)
        else if negb (truthy middleware) then Ok s
        else
          (* const next = () => dispatch(index + 1);
             await middleware(ctx, next) *)
          match middleware with
          | VFun f =>
              exec (fun _ => dispatch c fuel' (index + 1)%Z) (code f)
                   (record (EvRun index f) s)
          | _ => Err (TypeError "middleware is not a function"%string) s
          end
  end.

(** The state [composed] starts in: [let currentIndex = -1]. *)
Definition start (w : World C) : Exec C := mkExec w (-1)%Z [].

Definition composed (c : Composed) (fuel : nat) (w : World C)
    : Outcome (Exec C) :=
  dispatch c fuel 0%Z (start w).
End Compose.
End Compose.

(** ** middlewareEngine.ts *)

Record Engine : Type := mkEngine { middlewares : loc }.

Module MiddlewareEngine.
Section MiddlewareEngine.
Context {C : Type} (code : fid -> Middleware C).

(** [new MiddlewareEngine(options)]: the registry is a fresh array, a
    copy of [options.middlewares] when given. *)
Definition new (options : option loc) (w : World C) : Engine * World C :=
  let '(l, w') :=
    alloc (match options with Some o => deref w o | None => [] end) w in
  (mkEngine l, w').

(** [use(middleware)]: the check, then [this.middlewares.push]. *)
Definition use (en : Engine) (middleware : value) (w : World C)
    : Outcome (World C) :=
  if is_function middleware
  then Ok (store (middlewares en)
                 (deref w (middlewares en) ++ [middleware]) w)
  else Err (TypeError "Middleware must be a function"%string) w.

(** [getMiddlewares()]: [[...this.middlewares]]. *)
Definition getMiddlewares (en : Engine) (w : World C) : loc * World C :=
  alloc (deref w (middlewares en)) w.

(** [dispatch(ctx, finalHandler, extraMiddlewares)].  With extra
    middlewares the chain is the new array
    [[...this.middlewares, ...extraMiddlewares]]; without, it is
    [this.middlewares], the registry itself. *)
Definition dispatch (fuel : nat) (en : Engine)
    (finalHandler : option (FinalHandler C))
    (extraMiddlewares : option loc) (w : World C) : Outcome (Exec C) :=
  let '(allMiddlewares, w1) :=
    match extraMiddlewares with
    | Some extra =>
        alloc (deref w (middlewares en) ++ deref w extra) w
    | None => (middlewares en, w)
    end in
  match Compose.composeMiddlewares w1 (VArr allMiddlewares) finalHandler with
  | inl e => Err e (Compose.start w1)
  | inr c => Compose.composed code c fuel w1
  end.

Definition createMiddlewareEngine (options : option loc) (w : World C)
    : Engine * World C :=
  new options w.
End MiddlewareEngine.
End MiddlewareEngine.

(** ** Reading a trace *)

(** The position of a call of a middleware or of the final handler. *)
Definition ev_started (ev : event) : option Z :=
  match ev with
  | EvRun i _ | EvFinal i => Some i
  | EvInvoke _ => None
  end.

(** The position of an entry into [dispatch]. *)
Definition ev_invoked (ev : event) : option Z :=
  match ev with
  | EvInvoke i => Some i
  | _ => None
  end.

(** Positions whose middleware (or final handler) was called, in the order
    of the calls. *)
Definition started (tr : list event) : list Z := omap ev_started tr.


(** How often the final handler was called. *)
Fixpoint final_calls (tr : list event) : nat :=
  match tr with
  | [] => 0
  | EvFinal _ :: tr' => S (final_calls tr')
  | _ :: tr' => final_calls tr'
  end.

(** A property of the state an outcome ends in. *)
Definition holds {S} (P : S -> Prop) (o : Outcome S) : Prop :=
  match o with
  | Ok s | Err _ s | OutOfFuel s => P s
  end.

(** The message of the guard in [dispatch]. *)
Definition ProtocolViolation : exn := Error "next() called multiple times"%string.

(** A handler body with no [try ... catch]. *)
Fixpoint catch_free {C N} (p : Prog C N) : Prop :=
  match p with
  | Return | Throw _ => True
  | Act _ k => catch_free k
  | Branch k => forall w, catch_free (k w)
  | Next _ k => catch_free k
  | Try _ _ _ => False
  end.


(** What holds of every state an execution of [composed] passes through:
    the positions called so far are at most [currentIndex] and strictly
    increasing; a position was called only after [dispatch] was entered
    with it; and [dispatch] was entered with a position other than 0 only
    after the middleware of the position before was called (whose [next]
    is the one way there). *)
Record wf {C} (s : Exec C) : Prop := mkWf {
  wf_started_le : Forall (fun j => (j <= currentIndex s)%Z) (started (trace s));
  wf_started_sorted : StronglySorted Z.lt (started (trace s));
  wf_started_invoked :
    forall j, j ∈ started (trace s) -> EvInvoke j ∈ trace s;
  wf_invoked_nonneg : forall j, EvInvoke j ∈ trace s -> (0 <= j)%Z;
  wf_invoked_pred :
    forall j, EvInvoke j ∈ trace s ->
      j = 0%Z \/ exists f, EvRun (j - 1) f ∈ trace s
}.


(** ** Middlewares of the onion shape *)

(** [async (ctx, next) => { pre(ctx); await next(); post(ctx); }] *)
Definition onion {C} (pre post : C -> C) : Middleware C :=
  Modify pre (Next tt (Modify post Return)).

(** One layer of an onion: the function value and what it does to the
    context before and after its continuation. *)
Record Layer (C : Type) : Type := mkLayer {
  l_fid : fid;
  l_pre : C -> C;
  l_post : C -> C
}.
Arguments mkLayer {C} l_fid l_pre l_post.
Arguments l_fid {C} l.
Arguments l_pre {C} l.
Arguments l_post {C} l.

(** The function values of a list of layers, as array elements. *)
Definition layer_values {C} (ls : list (Layer C)) : list value :=
  (fun L => VFun (l_fid L)) <$> ls.

(** The context after the setup code of the layers ran, first layer
    first. *)
Definition run_pre {C} (ls : list (Layer C)) (x : C) : C :=
  fold_left (fun a L => l_pre L a) ls x.

(** The context after the teardown code of the layers ran, last layer
    first. *)
Definition run_post {C} (ls : list (Layer C)) (x : C) : C :=
  fold_right (fun L a => l_post L a) x ls.

(** What the engine does on the way in: it enters each position and calls
    its middleware. *)
Fixpoint onion_trace {C} (index : Z) (ls : list (Layer C)) : list event :=
  match ls with
  | [] => []
  | L :: ls' =>
      EvInvoke index :: EvRun index (l_fid L) :: onion_trace (index + 1) ls'
  end.

(** The state when the continuation of the last of the layers is called. *)
Fixpoint enter_all {C} (index : Z) (ls : list (Layer C)) (s : Exec C) : Exec C :=
  match ls with
  | [] => s
  | L :: ls' =>
      enter_all (index + 1) ls'
        (mkExec (set_ctx (l_pre L) (world s)) index
                (trace s ++ [EvInvoke index; EvRun index (l_fid L)]))
  end.

(** The state when the first of the layers returns. *)
Definition leave_all {C} (ls : list (Layer C)) (s : Exec C) : Exec C :=
  set_world (set_ctx (run_post ls) (world s)) s.

(** The layers [ls] sit in the array of [c] from position [index] on, and
    their bodies are of the onion shape. *)
Definition layers_at {C} (code : fid -> Middleware C)
    (c : Compose.Composed (C:=C)) (s : Exec C) (index : Z)
    (ls : list (Layer C)) : Prop :=
  forall k L, ls !! k = Some L ->
    deref (world s) (Compose.c_middlewares c) !! (Z.to_nat index + k)%nat
      = Some (VFun (l_fid L)) /\
    code (l_fid L) = onion (l_pre L) (l_post L).

(** Every layer's function value has an onion-shaped body in the table. *)
Definition onions {C} (code : fid -> Middleware C) (ls : list (Layer C)) : Prop :=
  forall L, L ∈ ls -> code (l_fid L) = onion (l_pre L) (l_post L).

(** [async () => { t(ctx); }] *)
Definition final_of {C} (t : C -> C) : FinalHandler C := Modify t Return.


(** The state [dispatch] is in once it passed its guard at [index]. *)
Definition entered {C} (index : Z) (s : Exec C) : Exec C :=
  set_currentIndex index (record (EvInvoke index) s).

(** The state in which the body of the middleware [f] at [index] starts. *)
Definition call_state {C} (index : Z) (f : fid) (s : Exec C) : Exec C :=
  record (EvRun index f) (entered index s).


(** A continuation that never settles.  A body that settles when given
    this continuation did so without awaiting it. *)
Definition pending_next {C N} : N -> Exec C -> Outcome (Exec C) :=
  fun _ s => OutOfFuel s.

(** A handler body run up to its first [await next()]: either it is over
    before (with what outcome), or it awaits the continuation [n] in some
    state with the rest of the body left to run.  Bodies with a
    [try ... catch] are not followed. *)
Fixpoint until_next {C N} (p : Prog C N) (s : Exec C)
    : Outcome (Exec C) + (N * Prog C N * Exec C) :=
  match p with
  | Return => inl (Ok s)
  | Throw e => inl (Err e s)
  | Act op k =>
      match op (world s) with
      | Ok w => until_next k (set_world w s)
      | Err e w => inl (Err e (set_world w s))
      | OutOfFuel w => inl (OutOfFuel (set_world w s))
      end
  | Branch k => until_next (k (world s)) s
  | Next n k => inr (n, k, s)
  | Try _ _ _ => inl (OutOfFuel s)
  end.

(** [awaiting code c w i s]: in an execution of the chain [c] started in
    the world [w], [dispatch] is entered at position [i] in state [s],
    while every middleware before [i] is awaiting its continuation for the
    first time, in a body without [try ... catch]. *)
Inductive awaiting {C} (code : fid -> Middleware C)
    (c : Compose.Composed (C:=C)) (w : World C) : nat -> Exec C -> Prop :=
| awaiting_start : awaiting code c w 0 (Compose.start w)
| awaiting_next (i : nat) (s : Exec C) (h : fid) (k : Middleware C)
    (s1 : Exec C) :
    awaiting code c w i s ->
    deref (world s) (Compose.c_middlewares c) !! i = Some (VFun h) ->
    catch_free (code h) ->
    until_next (code h) (call_state (Z.of_nat i) h s) = inr (tt, k, s1) ->
    awaiting code c w (S i) s1.


(** ** Worlds that differ in one array *)

(** The two worlds have the same context and the same arrays, except
    perhaps for the content of the array at [l]. *)
Definition agree {C} (l : loc) (w1 w2 : World C) : Prop :=
  ctx w1 = ctx w2 /\
  length (heap w1) = length (heap w2) /\
  forall l', l' <> l -> heap w1 !! l' = heap w2 !! l'.

Definition agree_exec {C} (l : loc) (s1 s2 : Exec C) : Prop :=
  agree l (world s1) (world s2) /\
  currentIndex s1 = currentIndex s2 /\
  trace s1 = trace s2.

(** The same kind of outcome, with the same error, in related states. *)
Definition agree_out {S} (R : S -> S -> Prop) (o1 o2 : Outcome S) : Prop :=
  match o1, o2 with
  | Ok a, Ok b => R a b
  | Err e1 a, Err e2 b => e1 = e2 /\ R a b
  | OutOfFuel a, OutOfFuel b => R a b
  | _, _ => False
  end.

(** A handler body that does not look at the content of the array at
    [l]: its actions and its branches do the same in worlds that differ
    only there. *)
Fixpoint ignores {C N} (l : loc) (p : Prog C N) : Prop :=
  match p with
  | Return | Throw _ => True
  | Act op k =>
      (forall w1 w2, agree l w1 w2 -> agree_out (agree l) (op w1) (op w2)) /\
      ignores l k
  | Branch k =>
      (forall w1 w2, agree l w1 w2 -> k w1 = k w2) /\
      (forall w, ignores l (k w))
  | Next _ k => ignores l k
  | Try body handler k =>
      ignores l body /\ (forall e, ignores l (handler e)) /\ ignores l k
  end.

(** ** Arrays a handler leaves alone *)

(** A handler body none of whose actions writes the array at [l]. *)
Fixpoint frames {C N} (l : loc) (p : Prog C N) : Prop :=
  match p with
  | Return | Throw _ => True
  | Act op k =>
      (forall w, holds (fun w' => heap w' !! l = heap w !! l) (op w)) /\
      frames l k
  | Branch k => forall w, frames l (k w)
  | Next _ k => frames l k
  | Try body handler k =>
      frames l body /\ (forall e, frames l (handler e)) /\ frames l k
  end.

(** Every middleware the engine called is the one [arr] holds at the
    position of the call. *)
Definition runs_from {C} (arr : list value) (s : Exec C) : Prop :=
  forall i f, EvRun i f ∈ trace s ->
    (0 <= i)%Z /\ arr !! Z.to_nat i = Some (VFun f).

(** ** The scenarios of the test suite *)

Module Scenarios.
(** The context of the tests: [ctx.logs]. *)
Definition TestContext : Type := list string.

Definition push (msg : string) : TestContext -> TestContext :=
  fun logs => logs ++ [msg].

(** A middleware that logs, awaits its continuation, and logs. *)
Definition logger (f : fid) (name : string) : Layer TestContext :=
  mkLayer f (push (String.append name "-before"))
            (push (String.append name "-after")).


(** [async (ctx, next) => { ctx.logs.push(a); ctx.logs.push(b); }],
    which never calls [next]. *)
Definition silent (a b : string) : Middleware TestContext :=
  Modify (push a) (Modify (push b) Return).

(** [async () => { throw new Error(msg); }] *)
Definition thrower {N} (msg : string) : Prog TestContext N :=
  Throw (Error msg).

(** A table of handler bodies: function value [f] is the [f]-th body. *)
Definition table (bodies : list (Middleware TestContext)) (f : fid)
    : Middleware TestContext :=
  default Return (bodies !! f).

Definition body_of (L : Layer TestContext) : Middleware TestContext :=
  onion (l_pre L) (l_post L).

(** A world with empty logs and the given arrays. *)
Definition world_of (arrays : list (list value)) : World TestContext :=
  mkWorld [] arrays.

(** 'should execute middlewares in onion model order' *)
Definition three_layers : list (Layer TestContext) :=
  [logger 0 "m1"; logger 1 "m2"; logger 2 "m3"].
Definition three_code : fid -> Middleware TestContext :=
  table (body_of <$> three_layers).
Definition three_world : World TestContext :=
  world_of [[VFun 0; VFun 1; VFun 2]].

(** A chain whose second middleware never calls [next], in front of a
    third middleware and of a final handler that would throw. *)
Definition halting_code : fid -> Middleware TestContext :=
  table [body_of (logger 0 "m1"); silent "m2-before" "m2-after";
         body_of (logger 2 "m3")].


(** 'finalHandler errors should propagate' *)
Definition one_layer : list (Layer TestContext) :=
  [mkLayer 0 (push "before") (push "after")].
Definition one_code : fid -> Middleware TestContext :=
  table (body_of <$> one_layer).
Definition one_world : World TestContext := world_of [[VFun 0]].

Definition twice_final : FinalHandler TestContext := final_of (push "final").


(** A registration during a dispatch: the registered middleware [m1]
    logs, calls [engine.use(late)], awaits its continuation and logs;
    [late] is an ordinary logging middleware.  The registry is the array
    at 0; the array at 1 is an empty list of extra middlewares. *)
Definition registrar : Middleware TestContext :=
  Modify (push "m1-before")
    (Act (MiddlewareEngine.use (mkEngine 0) (VFun 1))
       (Next tt (Modify (push "m1-after") Return))).
Definition late_code : fid -> Middleware TestContext :=
  table [registrar; body_of (logger 1 "late")].
Definition late_world : World TestContext := world_of [[VFun 0]; []].

(** A middleware that registers itself again before it awaits its
    continuation. *)
Definition self_registering : fid -> Middleware TestContext :=
  fun _ => Act (MiddlewareEngine.use (mkEngine 0) (VFun 0)) (Next tt Return).
End Scenarios.

(** ** Handlers whose actions return *)

(** Every action of the body returns or throws. *)
Fixpoint acts_settle {C N} (p : Prog C N) : Prop :=
  match p with
  | Return | Throw _ => True
  | Act op k => (forall w, settled (op w)) /\ acts_settle k
  | Branch k => forall w, acts_settle (k w)
  | Next _ k => acts_settle k
  | Try body handler k =>
      acts_settle body /\ (forall e, acts_settle (handler e)) /\ acts_settle k
  end.

(** The outcome is a return or a throw, in a state where [P] holds. *)
Definition settles_in {S} (P : S -> Prop) (o : Outcome S) : Prop :=
  match o with
  | Ok s | Err _ s => P s
  | OutOfFuel _ => False
  end.

(** ** Registrations in sequence *)

(** [engine.use(v1); engine.use(v2); ...]: the first registration that
    throws ends the sequence. *)
Fixpoint use_all {C} (en : Engine) (vs : list value) (w : World C)
    : Outcome (World C) :=
  match vs with
  | [] => Ok w
  | v :: vs' =>
      match MiddlewareEngine.use en v w with
      | Ok w' => use_all en vs' w'
      | Err e w' => Err e w'
      | OutOfFuel w' => OutOfFuel w'
      end
  end.

(** ** Catch blocks that let the guard's rejection through *)

(** Every [catch] block of the body ends by raising the guard's error
    when it is handed that error and a continuation that rejects with
    it: the block throws what it caught again, or it awaits the
    continuation once more.  A body without [try ... catch] is of this
    kind; a body that catches the rejection of a repeated call and
    returns is not. *)
Fixpoint lets_through {C N} (p : Prog C N) : Prop :=
  match p with
  | Return | Throw _ => True
  | Act _ k => lets_through k
  | Branch k => forall w, lets_through (k w)
  | Next _ k => lets_through k
  | Try body handler k =>
      lets_through body /\ (forall e, lets_through (handler e)) /\
      lets_through k /\
      forall (next : N -> Exec C -> Outcome (Exec C)) (s : Exec C),
        (forall n s0, exists s1, next n s0 = Err ProtocolViolation s1) ->
        exists s', exec next (handler ProtocolViolation) s = Err ProtocolViolation s'
  end.


(** ** Arrays a handler leaves alone, once they exist *)

(** A handler body none of whose actions changes the content of the
    array at [l], in a world that has it.  Actions that allocate arrays
    are of this kind. *)
Fixpoint leaves {C N} (l : loc) (p : Prog C N) : Prop :=
  match p with
  | Return | Throw _ => True
  | Act op k =>
      (forall w, (l < length (heap w))%nat ->
         holds (fun w' => heap w' !! l = heap w !! l) (op w)) /\
      leaves l k
  | Branch k => forall w, leaves l (k w)
  | Next _ k => leaves l k
  | Try body handler k =>
      leaves l body /\ (forall e, leaves l (handler e)) /\ leaves l k
  end.

(** ** More scenarios *)

Module Scenarios2.
(** [async (ctx, next) => { middlewares.length = 0; await next(); }]: a
    middleware that empties the array of the chain before it awaits its
    continuation. *)
Definition emptying : Middleware Scenarios.TestContext :=
  Act (fun w => Ok (store 0 [] w)) (Next tt Return).
Definition emptying_code : fid -> Middleware Scenarios.TestContext :=
  Scenarios.table [emptying].

(** A chain whose array was given a non-function at position 1 after it
    was composed. *)
Definition spoiled_world : World Scenarios.TestContext :=
  Scenarios.world_of [[VFun 0; VStr "not a function"; VFun 2]].



(** [async (ctx, next) => { engine.use(self); engine.getMiddlewares();
    await next(); }]: a middleware that registers itself again and takes
    a copy of the registry before it awaits its continuation. *)
Definition listing : fid -> Middleware Scenarios.TestContext :=
  fun _ =>
    Act (MiddlewareEngine.use (mkEngine 0) (VFun 0))
      (Act (fun w => Ok (snd (MiddlewareEngine.getMiddlewares (mkEngine 0) w)))
         (Next tt Return)).
End Scenarios2.

(** ** adapters/fetch.ts: [buildUrl] *)

Module FetchAdapter.

(** The fields of [RequestConfig] that [buildUrl] reads.  The object
    [params] is given by its entries, in the order of [Object.entries].
    The characters [buildUrl] looks for are ASCII; a string is the
    sequence of its characters. *)
Record RequestConfig : Type := mkRequestConfig {
  url : string;
  params : option (list (string * value))
}.

(** [s.startsWith(p)] *)
Definition startsWith (s p : string) : bool := String.prefix p s.

(** [s.includes(c)], for a string [c] of one character. *)
Fixpoint includes (s : string) (c : ascii) : bool :=
  match s with
  | EmptyString => false
  | String a s' => Ascii.eqb a c || includes s' c
  end.

(** [s.replace(/\/$/, '')]: one slash is removed from the end. *)
Fixpoint strip_trailing_slash (s : string) : string :=
  match s with
  | EmptyString => EmptyString
  | String a s' =>
      match s' with
      | EmptyString => if Ascii.eqb a "/"%char then EmptyString else s
      | String _ _ => String a (strip_trailing_slash s')
      end
  end.

(** [s.replace(/^\//, '')]: one slash is removed from the start. *)
Definition strip_leading_slash (s : string) : string :=
  match s with
  | EmptyString => EmptyString
  | String a s' => if Ascii.eqb a "/"%char then s' else s
  end.

(** [value !== undefined && value !== null] *)
Definition defined (v : value) : bool :=
  match v with
  | VUndefined | VNull => false
  | _ => true
  end.

Section BuildUrl.
(** [String(value)], and the serializer [URLSearchParams] applies to a
    name and to a value, are the platform's. *)
Variable js_String : value -> string.
Variable urlencode : string -> string.

(** The loop over [Object.entries(config.params)]: the list of pairs of
    [searchParams] after it, from the list [sp] before it. *)
Fixpoint append_entries (entries : list (string * value))
    (sp : list (string * string)) : list (string * string) :=
  match entries with
  | [] => sp
  | (key, v) :: entries' =>
      append_entries entries'
        (if defined v then sp ++ [(key, js_String v)] else sp)
  end.

(** [searchParams.toString()] *)
Definition toString (sp : list (string * string)) : string :=
  String.concat "&"
    (List.map (fun kv => (urlencode (fst kv) ++ "=" ++ urlencode (snd kv))%string) sp).

Definition buildUrl (config : RequestConfig) (baseURL : option string)
    : string :=
  (* let url = config.url *)
  let url0 := url config in
  (* if (baseURL && !url.startsWith('http://') && !url.startsWith('https://')) *)
  let url1 :=
    match baseURL with
    | Some base =>
        if negb (String.eqb base EmptyString)
           && negb (startsWith url0 "http://")
           && negb (startsWith url0 "https://")
        then ((strip_trailing_slash base ++ "/") ++ strip_leading_slash url0)%string
        else url0
    | None => url0
    end in
  (* if (config.params && Object.keys(config.params).length > 0) *)
  match params config with
  | Some entries =>
      if (0 <? length entries)%nat then
        let searchParams := append_entries entries [] in
        let queryString := toString searchParams in
        (* if (queryString) *)
        if negb (String.eqb queryString EmptyString)
        then (url1 ++ ((if includes url1 "?"%char then "&" else "?") ++ queryString))%string
        else url1
      else url1
  | None => url1
  end.
End BuildUrl.
End FetchAdapter.

(** * Properties *)

(** ** One step of [dispatch] *)

Section Steps.
Context {C : Type} (code : fid -> Middleware C).
Implicit Types (c : Compose.Composed (C:=C)) (s : Exec C).

Lemma dispatch_unfold c fuel index s :
  Compose.dispatch code c (S fuel) index s =
    let s := record (EvInvoke index) s in
    if (index <=? currentIndex s)%Z
    then Err ProtocolViolation s
    else
      let s := set_currentIndex index s in
      let arr := deref (world s) (Compose.c_middlewares c) in
      let middleware := js_index arr index in
      if (index =? Z.of_nat (length arr))%Z then
        match Compose.c_finalHandler c with
        | Some finalHandler =>
            exec no_next finalHandler (record (EvFinal index) s)
        | None => Ok s
        end
      else if negb (truthy middleware) then Ok s
      else
        match middleware with
        | VFun f =>
            exec (fun _ => Compose.dispatch code c fuel (index + 1)%Z)
                 (code f) (record (EvRun index f) s)
        | _ => Err (TypeError "middleware is not a function"%string) s
        end.
Proof. reflexivity. Qed.


(** A position that holds a function: its body runs, with
    [dispatch (index + 1)] as continuation. *)
Lemma dispatch_run c fuel index s f :
  (currentIndex s < index)%Z ->
  (0 <= index)%Z ->
  deref (world s) (Compose.c_middlewares c) !! Z.to_nat index = Some (VFun f) ->
  Compose.dispatch code c (S fuel) index s =
    exec (fun _ => Compose.dispatch code c fuel (index + 1)%Z) (code f)
      (record (EvRun index f)
         (set_currentIndex index (record (EvInvoke index) s))).
Proof.
  intros Hlt Hnn Hlk. rewrite dispatch_unfold. cbn zeta.
  replace (index <=? currentIndex (record (EvInvoke index) s))%Z with false
    by (symmetry; apply Z.leb_gt; exact Hlt).
  cbn [world set_currentIndex record].
  pose proof (lookup_lt_Some _ _ _ Hlk) as Hlen.
  replace (index =? Z.of_nat (length (deref (world s) (Compose.c_middlewares c))))%Z
    with false by (symmetry; apply Z.eqb_neq; lia).
  unfold js_index.
  replace (index <? 0)%Z with false by (symmetry; apply Z.ltb_ge; lia).
  rewrite Hlk. reflexivity.
Qed.


(** A position that is not the end and holds a falsy value. *)
Lemma dispatch_missing c fuel index s :
  (currentIndex s < index)%Z ->
  index <> Z.of_nat (length (deref (world s) (Compose.c_middlewares c))) ->
  truthy (js_index (deref (world s) (Compose.c_middlewares c)) index) = false ->
  Compose.dispatch code c (S fuel) index s =
    Ok (set_currentIndex index (record (EvInvoke index) s)).
Proof.
  intros Hlt Hlen Hfalsy. rewrite dispatch_unfold. cbn zeta.
  replace (index <=? currentIndex (record (EvInvoke index) s))%Z with false
    by (symmetry; apply Z.leb_gt; exact Hlt).
  cbn [world set_currentIndex record].
  replace (index =? Z.of_nat (length (deref (world s) (Compose.c_middlewares c))))%Z
    with false by (symmetry; apply Z.eqb_neq; exact Hlen).
  rewrite Hfalsy. reflexivity.
Qed.
End Steps.

(** ** What every execution keeps true *)

Section Invariants.
Context {C : Type} (code : fid -> Middleware C).
Implicit Types (c : Compose.Composed (C:=C)) (s : Exec C).

Lemma started_snoc tr ev :
  started (tr ++ [ev]) =
    started tr ++ match ev_started ev with Some i => [i] | None => [] end.
Proof.
  unfold started. rewrite omap_app. cbn. destruct (ev_started ev); reflexivity.
Qed.


Lemma elem_of_started j tr :
  j ∈ started tr <-> (exists f, EvRun j f ∈ tr) \/ EvFinal j ∈ tr.
Proof.
  unfold started. rewrite list_elem_of_omap. split.
  - intros [ev [Hin Hev]]. destruct ev; cbn in Hev; inversion Hev; subst; eauto.
  - intros [[f Hin] | Hin]; eexists; (split; [exact Hin | reflexivity]).
Qed.

Lemma StronglySorted_snoc (l : list Z) (x : Z) :
  StronglySorted Z.lt l ->
  Forall (fun j => (j < x)%Z) l ->
  StronglySorted Z.lt (l ++ [x]).
Proof.
  induction 1 as [| a l Hs IH Ha]; intros Hall; cbn.
  - repeat constructor.
  - inversion Hall as [| ? ? Hax Hall']; subst. constructor.
    + apply IH. exact Hall'.
    + apply Forall_app. split; [exact Ha |]. repeat constructor. exact Hax.
Qed.

Lemma holds_impl {T} (P Q : T -> Prop) (o : Outcome T) :
  (forall x, P x -> Q x) -> holds P o -> holds Q o.
Proof. intros HPQ. destruct o; cbn; auto. Qed.

(** A handler body keeps whatever its actions on the world and its
    continuation keep. *)
Lemma exec_holds {N} (P : Exec C -> Prop)
    (next : N -> Exec C -> Outcome (Exec C)) (p : Prog C N) :
  (forall w s, P s -> P (set_world w s)) ->
  (forall n s, P s -> holds P (next n s)) ->
  forall s, P s -> holds P (exec next p s).
Proof.
  intros Hworld Hnext.
  induction p as [| e | op k IHk | k IHk | n k IHk | body IHb handler IHh k IHk];
    intros s HP; cbn [exec].
  - exact HP.
  - exact HP.
  - destruct (op (world s)) as [w | e w | w]; cbn; auto.
  - apply IHk. exact HP.
  - specialize (Hnext n s HP).
    destruct (next n s) as [s' | e s' | s']; cbn in *; auto.
  - specialize (IHb s HP).
    destruct (exec next body s) as [s' | e s' | s']; cbn in *; auto.
    specialize (IHh e s' IHb).
    destruct (exec next (handler e) s') as [s'' | e' s'' | s'']; cbn in *; auto.
Qed.

Lemma wf_set_world w s : wf s -> wf (set_world w s).
Proof. intros [H1 H2 H3 H4 H5]. constructor; assumption. Qed.

Lemma wf_start (w : World C) : wf (Compose.start w).
Proof.
  constructor; cbn.
  - constructor.
  - constructor.
  - intros j Hj. inversion Hj.
  - intros j Hj. inversion Hj.
  - intros j Hj. inversion Hj.
Qed.

(** Entering [dispatch] at a position whose predecessor ran. *)
Lemma wf_invoke s index :
  wf s ->
  (index = 0%Z \/ exists f, EvRun (index - 1) f ∈ trace s) ->
  wf (record (EvInvoke index) s).
Proof.
  intros [H1 H2 H3 H4 H5] Hpre.
  assert (Hnn : (0 <= index)%Z).
  { destruct Hpre as [-> | [f Hf]]; [lia |].
    assert (Hs : (index - 1)%Z ∈ started (trace s))
      by (apply elem_of_started; eauto).
    specialize (H4 _ (H3 _ Hs)). lia. }
  constructor; cbn [record trace currentIndex].
  - rewrite started_snoc. cbn. rewrite app_nil_r. exact H1.
  - rewrite started_snoc. cbn. rewrite app_nil_r. exact H2.
  - intros j Hj. rewrite started_snoc in Hj. cbn in Hj. rewrite app_nil_r in Hj.
    apply elem_of_app. left. auto.
  - intros j Hj. apply elem_of_app in Hj as [Hj | Hj]; [auto |].
    apply list_elem_of_singleton in Hj. inversion Hj; subst. exact Hnn.
  - intros j Hj. apply elem_of_app in Hj as [Hj | Hj].
    + destruct (H5 _ Hj) as [-> | [f Hf]]; [left; reflexivity |].
      right. exists f. apply elem_of_app. left. exact Hf.
    + apply list_elem_of_singleton in Hj. inversion Hj; subst.
      destruct Hpre as [-> | [f Hf]]; [left; reflexivity |].
      right. exists f. apply elem_of_app. left. exact Hf.
Qed.

(** Passing the guard. *)
Lemma wf_advance s index :
  wf s -> (currentIndex s < index)%Z -> wf (set_currentIndex index s).
Proof.
  intros [H1 H2 H3 H4 H5] Hlt. constructor; cbn [set_currentIndex trace currentIndex];
    try assumption.
  eapply Forall_impl; [exact H1 |]. cbn. intros j Hj. lia.
Qed.

(** Calling the middleware or the final handler of the position just
    entered. *)
Lemma wf_call s index ev :
  wf s ->
  ev_started ev = Some index ->
  ev_invoked ev = None ->
  EvInvoke index ∈ trace s ->
  Forall (fun j => (j < index)%Z) (started (trace s)) ->
  currentIndex s = index ->
  wf (record ev s).
Proof.
  intros [H1 H2 H3 H4 H5] Hev Hni Hin Hlt Hcur.
  assert (Hmem : forall e', e' ∈ trace s -> e' ∈ trace s ++ [ev])
    by (intros e' He'; apply elem_of_app; left; exact He').
  assert (Hold : forall j, EvInvoke j ∈ trace s ++ [ev] -> EvInvoke j ∈ trace s).
  { intros j Hj. apply elem_of_app in Hj as [Hj | Hj]; [exact Hj |].
    apply list_elem_of_singleton in Hj. subst ev. discriminate. }
  constructor; cbn [record trace currentIndex].
  - rewrite started_snoc, Hev. apply Forall_app. split; [exact H1 |].
    repeat constructor. lia.
  - rewrite started_snoc, Hev. apply StronglySorted_snoc; assumption.
  - intros j Hj. rewrite started_snoc, Hev in Hj.
    apply elem_of_app in Hj as [Hj | Hj]; [auto |].
    apply list_elem_of_singleton in Hj. subst j. auto.
  - intros j Hj. auto.
  - intros j Hj. destruct (H5 _ (Hold _ Hj)) as [-> | [f Hf]]; eauto.
Qed.

(** [dispatch] keeps the state well formed and only appends to the
    trace. *)
Lemma dispatch_wf c fuel :
  forall index s,
    wf s ->
    (index = 0%Z \/ exists f, EvRun (index - 1) f ∈ trace s) ->
    holds (fun s' => wf s' /\ trace s `prefix_of` trace s')
          (Compose.dispatch code c fuel index s).
Proof.
  induction fuel as [| fuel IH]; intros index s Hwf Hpre;
    [split; [exact Hwf | reflexivity] |].
  rewrite dispatch_unfold. cbn zeta.
  pose proof (wf_invoke s index Hwf Hpre) as Hwf1.
  set (s1 := record (EvInvoke index) s) in *.
  assert (Hp1 : trace s `prefix_of` trace s1) by (apply prefix_app_r; reflexivity).
  destruct (Z.leb_spec index (currentIndex s1)) as [Hle | Hgt].
  { cbn. auto. }
  pose proof (wf_advance s1 index Hwf1 Hgt) as Hwf2.
  set (s2 := set_currentIndex index s1) in *.
  assert (Hin2 : EvInvoke index ∈ trace s2).
  { cbn. apply elem_of_app. right. apply list_elem_of_singleton. reflexivity. }
  assert (Hlt2 : Forall (fun j => (j < index)%Z) (started (trace s2))).
  { eapply Forall_impl; [exact (wf_started_le _ Hwf1) |]. cbn. intros j Hj.
    change (currentIndex s1) with (currentIndex s) in *. lia. }
  assert (Hcall : forall ev, ev_started ev = Some index -> ev_invoked ev = None ->
            wf (record ev s2) /\ trace s `prefix_of` trace (record ev s2)).
  { intros ev Hev Hni. split.
    - apply wf_call with (index := index); auto.
    - cbn. apply prefix_app_r. exact Hp1. }
  destruct (index =? Z.of_nat (length (deref (world s2) (Compose.c_middlewares c))))%Z.
  { destruct (Compose.c_finalHandler c) as [fh |]; [| cbn; auto].
    destruct (Hcall (EvFinal index) eq_refl eq_refl) as [Hwf3 Hp3].
    apply exec_holds.
    - intros w s' [Hw Hp]. split; [apply wf_set_world; exact Hw | exact Hp].
    - intros [].
    - split; assumption. }
  destruct (negb (truthy (js_index (deref (world s2) (Compose.c_middlewares c)) index))).
  { cbn. auto. }
  destruct (js_index (deref (world s2) (Compose.c_middlewares c)) index)
    as [| | b | n | str | f | l]; try (cbn; auto; fail).
  destruct (Hcall (EvRun index f) eq_refl eq_refl) as [Hwf3 Hp3].
  set (s3 := record (EvRun index f) s2) in *.
  eapply holds_impl with
    (P := fun s' => wf s' /\ trace s3 `prefix_of` trace s').
  { intros s' [Hw Hp]. split; [exact Hw |]. etransitivity; eassumption. }
  apply exec_holds.
  - intros w s' [Hw Hp]. split; [apply wf_set_world; exact Hw | exact Hp].
  - intros _ s' [Hw Hp].
    eapply holds_impl; [| apply IH; [exact Hw |]].
    + cbn. intros s'' [Hw' Hp']. split; [exact Hw' |]. etransitivity; eassumption.
    + right. exists f. replace (index + 1 - 1)%Z with index by lia.
      eapply elem_of_prefix; [| exact Hp].
      cbn. apply elem_of_app. right. apply list_elem_of_singleton. reflexivity.
  - split; [exact Hwf3 | reflexivity].
Qed.

(** Every call of [composed] ends in a well-formed state. *)
Lemma composed_wf c fuel (w : World C) :
  holds wf (Compose.composed code c fuel w).
Proof.
  unfold Compose.composed.
  eapply holds_impl; [| apply dispatch_wf; [apply wf_start | left; reflexivity]].
  cbn. intros s [Hw _]. exact Hw.
Qed.

(** In a well-formed state, a position that ran was reached through
    every continuation before it. *)
Lemma wf_started_chain s i :
  wf s -> (0 <= i)%Z ->
  EvInvoke (i + 1) ∉ trace s ->
  forall j, j ∈ started (trace s) -> (j <= i)%Z.
Proof.
  intros Hwf Hi Hnot.
  assert (Hgen : forall (n : nat) j, j = (i + 1 + Z.of_nat n)%Z ->
                   j ∈ started (trace s) -> False).
  { induction n as [| n IHn]; intros j Hj Hin.
    - apply Hnot. replace (i + 1)%Z with j by lia.
      apply (wf_started_invoked _ Hwf). exact Hin.
    - pose proof (wf_started_invoked _ Hwf _ Hin) as Hinv.
      destruct (wf_invoked_pred _ Hwf _ Hinv) as [-> | [f Hf]]; [lia |].
      apply (IHn (j - 1)%Z); [lia |].
      apply elem_of_started. left. eauto. }
  intros j Hin. destruct (Z.le_gt_cases j i) as [Hle | Hgt]; [exact Hle |].
  exfalso. apply (Hgen (Z.to_nat (j - i - 1)) j); [lia | exact Hin].
Qed.

Lemma sorted_NoDup (l : list Z) : StronglySorted Z.lt l -> NoDup l.
Proof.
  induction 1 as [| a l Hs IH Ha]; constructor; [| exact IH].
  intros Hin. rewrite Forall_forall in Ha. specialize (Ha _ Hin). lia.
Qed.

Lemma started_split (t1 t2 : list event) (ev : event) (j : Z) :
  ev_started ev = Some j ->
  started (t1 ++ ev :: t2) = started t1 ++ j :: started t2.
Proof.
  intros Hev. unfold started. rewrite omap_app. cbn. rewrite Hev. reflexivity.
Qed.

(** No position has both its middleware and the final handler called. *)
Lemma wf_run_final_disjoint s (j : Z) (f : fid) :
  wf s -> EvRun j f ∈ trace s -> EvFinal j ∈ trace s -> False.
Proof.
  intros Hwf Hrun Hfin.
  pose proof (sorted_NoDup _ (wf_started_sorted _ Hwf)) as Hnd.
  apply list_elem_of_split in Hrun as (t1 & t2 & Htr).
  rewrite Htr in Hfin, Hnd.
  rewrite (started_split t1 t2 (EvRun j f) j eq_refl) in Hnd.
  apply NoDup_app in Hnd as (_ & Hdisj & Hnd2).
  apply NoDup_cons in Hnd2 as [Hnotin _].
  apply elem_of_app in Hfin as [Hfin | Hfin].
  - apply (Hdisj j).
    + apply elem_of_started. right. exact Hfin.
    + apply elem_of_cons. left. reflexivity.
  - apply elem_of_cons in Hfin as [Hfin | Hfin]; [discriminate |].
    apply Hnotin. apply elem_of_started. right. exact Hfin.
Qed.

(** Nothing is called at a position after that of the final handler. *)
Lemma wf_final_is_last s (j : Z) :
  wf s -> EvFinal j ∈ trace s ->
  forall k, k ∈ started (trace s) -> (k <= j)%Z.
Proof.
  intros Hwf Hfin.
  assert (Hj : j ∈ started (trace s)) by (apply elem_of_started; right; exact Hfin).
  pose proof (wf_invoked_nonneg _ Hwf _ (wf_started_invoked _ Hwf _ Hj)) as Hnn.
  apply wf_started_chain; [exact Hwf | exact Hnn |].
  intros Hinv. destruct (wf_invoked_pred _ Hwf _ Hinv) as [H0 | [f Hf]]; [lia |].
  replace (j + 1 - 1)%Z with j in Hf by lia.
  exact (wf_run_final_disjoint s j f Hwf Hf Hfin).
Qed.

Lemma final_calls_app (t1 t2 : list event) :
  final_calls (t1 ++ t2) = (final_calls t1 + final_calls t2)%nat.
Proof.
  induction t1 as [| ev t1 IH]; [reflexivity |].
  destruct ev; cbn; rewrite IH; reflexivity.
Qed.

Lemma final_calls_pos (tr : list event) :
  (0 < final_calls tr)%nat -> exists t1 j t2, tr = t1 ++ EvFinal j :: t2 /\
                                         final_calls t1 = 0%nat.
Proof.
  induction tr as [| ev tr IH]; cbn; [lia |].
  destruct ev as [i | i f | i]; intros Hpos.
  - destruct (IH Hpos) as (t1 & j & t2 & -> & H0).
    exists (EvInvoke i :: t1), j, t2. split; [reflexivity | exact H0].
  - destruct (IH Hpos) as (t1 & j & t2 & -> & H0).
    exists (EvRun i f :: t1), j, t2. split; [reflexivity | exact H0].
  - exists [], i, tr. split; reflexivity.
Qed.

(** In a well-formed state the final handler was called at most once. *)
Lemma wf_final_calls s : wf s -> (final_calls (trace s) <= 1)%nat.
Proof.
  intros Hwf.
  destruct (Nat.le_gt_cases (final_calls (trace s)) 1) as [Hle | Hgt]; [exact Hle |].
  exfalso.
  destruct (final_calls_pos (trace s) ltac:(lia)) as (t1 & j & t2 & Htr & H0).
  rewrite Htr, final_calls_app in Hgt. cbn in Hgt. rewrite H0 in Hgt.
  destruct (final_calls_pos t2 ltac:(lia)) as (t3 & j' & t4 & Ht2 & _).
  assert (Hj : EvFinal j ∈ trace s).
  { rewrite Htr. apply elem_of_app. right. apply elem_of_cons. left. reflexivity. }
  assert (Hj' : j' ∈ started t2).
  { apply elem_of_started. right. rewrite Ht2.
    apply elem_of_app. right. apply elem_of_cons. left. reflexivity. }
  pose proof (wf_started_sorted _ Hwf) as Hs.
  rewrite Htr, (started_split t1 t2 (EvFinal j) j eq_refl) in Hs.
  apply StronglySorted_app in Hs as (_ & _ & Hs).
  apply StronglySorted_cons in Hs as [Hall _].
  rewrite Forall_forall in Hall. specialize (Hall _ Hj').
  assert (Hle : (j' <= j)%Z).
  { apply (wf_final_is_last s j Hwf Hj). rewrite Htr.
    rewrite (started_split t1 t2 (EvFinal j) j eq_refl).
    apply elem_of_app. right. apply elem_of_cons. right. exact Hj'. }
  lia.
Qed.
End Invariants.

(** ** Chains of onion-shaped middlewares *)

Section Onions.
Context {C : Type} (code : fid -> Middleware C).
Implicit Types (c : Compose.Composed (C:=C)) (s : Exec C) (ls : list (Layer C)).

Lemma enter_all_world index ls s :
  world (enter_all index ls s) = set_ctx (run_pre ls) (world s).
Proof.
  revert index s. induction ls as [| L ls IH]; intros index s; cbn.
  - destruct s as [[x h] i tr]. reflexivity.
  - rewrite IH. reflexivity.
Qed.

Lemma enter_all_trace index ls s :
  trace (enter_all index ls s) = trace s ++ onion_trace index ls.
Proof.
  revert index s. induction ls as [| L ls IH]; intros index s; cbn.
  - rewrite app_nil_r. reflexivity.
  - rewrite IH. cbn. rewrite <- app_assoc. reflexivity.
Qed.

Lemma enter_all_currentIndex index ls s :
  (currentIndex s < index)%Z ->
  (currentIndex (enter_all index ls s) < index + Z.of_nat (length ls))%Z.
Proof.
  revert index s. induction ls as [| L ls IH]; intros index s Hlt; cbn [enter_all length].
  - lia.
  - replace (index + Z.of_nat (S (length ls)))%Z
      with (index + 1 + Z.of_nat (length ls))%Z by lia.
    apply IH. cbn. lia.
Qed.

(** Through the layers and back: what the chain does from position
    [index] is what it does from the position after the layers, wrapped
    in their setup and teardown; a rejection from inside passes through
    unchanged and skips the teardown. *)
Lemma dispatch_onions c ls :
  forall fuel index s,
    (currentIndex s < index)%Z ->
    (0 <= index)%Z ->
    layers_at code c s index ls ->
    Compose.dispatch code c (length ls + fuel) index s =
      match Compose.dispatch code c fuel (index + Z.of_nat (length ls))
              (enter_all index ls s) with
      | Ok s' => Ok (leave_all ls s')
      | Err e s' => Err e s'
      | OutOfFuel s' => OutOfFuel s'
      end.
Proof.
  induction ls as [| L ls IH]; intros fuel index s Hlt Hnn Hat.
  - cbn [length enter_all Nat.add]. replace (index + Z.of_nat 0)%Z with index by lia.
    destruct (Compose.dispatch code c fuel index s) as [[[x h] i tr] | |]; reflexivity.
  - destruct (Hat 0%nat L eq_refl) as [Hlk Hcode].
    rewrite Nat.add_0_r in Hlk.
    cbn [length Nat.add]. rewrite (dispatch_run code c _ index s (l_fid L) Hlt Hnn Hlk).
    rewrite Hcode. unfold onion, Modify. cbn [exec].
    set (s1 := set_world _ _).
    assert (Hs1 : s1 = mkExec (set_ctx (l_pre L) (world s)) index
                        (trace s ++ [EvInvoke index; EvRun index (l_fid L)])).
    { subst s1. unfold set_world, record, set_currentIndex. cbn.
      rewrite <- app_assoc. reflexivity. }
    rewrite Hs1. clear s1 Hs1.
    rewrite IH.
    + cbn [enter_all length].
      replace (index + 1 + Z.of_nat (length ls))%Z
        with (index + Z.of_nat (S (length ls)))%Z by lia.
      destruct (Compose.dispatch code c fuel _ _) as [s' | e s' | s']; reflexivity.
    + cbn. lia.
    + lia.
    + intros k L' Hk. destruct (Hat (S k) L' Hk) as [Hlk' Hcode']. split; [| exact Hcode'].
      cbn [world]. unfold deref, set_ctx in *. cbn [heap].
      replace (Z.to_nat (index + 1) + k)%nat with (Z.to_nat index + S k)%nat by lia.
      exact Hlk'.
Qed.
End Onions.

(** ** The onion order *)

Section OnionOrder.
Context {C : Type} (code : fid -> Middleware C).
Implicit Types (w : World C) (ls : list (Layer C)).

Lemma forallb_layer_values ls : forallb is_function (layer_values ls) = true.
Proof. induction ls as [| L ls IH]; cbn; auto. Qed.

Lemma length_layer_values ls : length (layer_values ls) = length ls.
Proof. unfold layer_values. apply length_fmap. Qed.

Lemma layer_values_app (R E : list (Layer C)) :
  layer_values (R ++ E) = layer_values R ++ layer_values E.
Proof. unfold layer_values. apply fmap_app. Qed.


(** Layers that fill the front of the array of [c]. *)
Lemma layers_at_prefix c (s : Exec C) ls rest :
  deref (world s) (Compose.c_middlewares c) = layer_values ls ++ rest ->
  onions code ls ->
  layers_at code c s 0 ls.
Proof.
  intros Harr Hon k L Hk. split.
  - rewrite Harr. change (Z.to_nat 0 + k)%nat with k. apply lookup_app_l_Some.
    unfold layer_values. rewrite list_lookup_fmap, Hk. reflexivity.
  - apply Hon. eapply list_elem_of_lookup_2. exact Hk.
Qed.


End OnionOrder.

Section ScenarioTactics.
Lemma elem_of_cons_inv {A} (P : A -> Prop) (x : A) (l : list A) :
  P x -> (forall y, y ∈ l -> P y) -> forall y, y ∈ x :: l -> P y.
Proof.
  intros Hx Hl y Hy. apply elem_of_cons in Hy as [-> | Hy]; auto.
Qed.

Lemma elem_of_nil_inv {A} (P : A -> Prop) : forall y : A, y ∈ [] -> P y.
Proof. intros y Hy. inversion Hy. Qed.
End ScenarioTactics.

(** The layers of a concrete scenario have onion-shaped bodies in its
    table: one case per layer. *)
Ltac onions_by_cases :=
  unfold onions;
  repeat (apply elem_of_cons_inv; [reflexivity |]);
  apply elem_of_nil_inv.


(** ** Handlers that do not call their continuation *)

Section Halting.
Context {C : Type} (code : fid -> Middleware C).
Implicit Types (w : World C) (ls : list (Layer C)) (s : Exec C).

(** A body that settles without awaiting its continuation does the same
    whatever the continuation is, and leaves the engine's own state
    alone. *)
Lemma exec_without_next {N} (next : N -> Exec C -> Outcome (Exec C))
    (p : Prog C N) :
  forall s o,
    exec pending_next p s = o -> settled o ->
    exec next p s = o /\
    holds (fun s' => currentIndex s' = currentIndex s /\ trace s' = trace s) o.
Proof.
  induction p as [| e | op k IHk | k IHk | n k IHk | body IHb handler IHh k IHk];
    intros s o Ho Hne; cbn [exec] in *.
  - subst o. cbn. auto.
  - subst o. cbn. auto.
  - destruct (op (world s)) as [w1 | e w1 | w1].
    + destruct (IHk _ _ Ho Hne) as [He Hh]. split; [exact He |].
      eapply holds_impl; [| exact Hh]. cbn. auto.
    + subst o. cbn. auto.
    + subst o. contradiction.
  - apply IHk; assumption.
  - unfold pending_next in Ho at 1. subst o. contradiction.
  - destruct (exec pending_next body s) as [s1 | e s1 | s1] eqn:Hb.
    + destruct (IHb s (Ok s1) Hb I) as [Hb' [Hc Ht]].
      rewrite Hb'. destruct (IHk _ _ Ho Hne) as [He Hh]. split; [exact He |].
      eapply holds_impl; [| exact Hh]. cbn. intros x [? ?]. split; congruence.
    + destruct (IHb s (Err e s1) Hb I) as [Hb' [Hc Ht]].
      rewrite Hb'.
      destruct (exec pending_next (handler e) s1) as [s2 | e2 s2 | s2] eqn:Hh.
      * destruct (IHh e s1 (Ok s2) Hh I) as [Hh' [Hc2 Ht2]].
        rewrite Hh'. destruct (IHk _ _ Ho Hne) as [He Hk]. split; [exact He |].
        eapply holds_impl; [| exact Hk]. cbn. intros x [? ?]. split; congruence.
      * destruct (IHh e s1 (Err e2 s2) Hh I) as [Hh' [Hc2 Ht2]].
        rewrite Hh'. subst o. split; [reflexivity |]. cbn. split; congruence.
      * subst o. contradiction.
    + subst o. contradiction.
Qed.

Lemma forallb_app_true {A} (f : A -> bool) (l1 l2 : list A) :
  forallb f l1 = true -> forallb f l2 = true -> forallb f (l1 ++ l2) = true.
Proof. intros H1 H2. rewrite forallb_app, H1, H2. reflexivity. Qed.

Lemma lookup_after_layers ls (v : value) (rest : list value) :
  (layer_values ls ++ v :: rest) !! length ls = Some v.
Proof.
  rewrite lookup_app_r by (rewrite length_layer_values; lia).
  rewrite length_layer_values, Nat.sub_diag. reflexivity.
Qed.

(** C5: the middlewares before position [i] are of the onion shape, and
    the body of the middleware at position [i] returns without having
    called its continuation.  Then the composed promise resolves; the
    middlewares before [i] have all run their teardown code; and the
    engine called the middlewares at the positions 0..i and nothing
    else: no middleware after position [i], and not the final handler,
    whatever they are. *)
Theorem halting_handler_stops_chain w (l : loc) ls (h : fid)
    (rest : list value) (fin : option (FinalHandler C)) (fuel : nat) s' :
  deref w l = layer_values ls ++ VFun h :: rest ->
  forallb is_function rest = true ->
  onions code ls ->
  exec pending_next (code h)
    (call_state (Z.of_nat (length ls)) h (enter_all 0 ls (Compose.start w))) = Ok s' ->
  exists c,
    Compose.composeMiddlewares w (VArr l) fin = inr c /\
    Compose.composed code c (S (length ls) + fuel) w = Ok (leave_all ls s') /\
    trace (leave_all ls s') =
      onion_trace 0 ls ++
      [EvInvoke (Z.of_nat (length ls)); EvRun (Z.of_nat (length ls)) h].
Proof.
  intros Harr Hrest Hon Hbody. eexists. split; [| split].
  - unfold Compose.composeMiddlewares. rewrite Harr.
    rewrite forallb_app_true; [reflexivity | apply forallb_layer_values |].
    cbn. exact Hrest.
  - unfold Compose.composed.
    replace (S (length ls) + fuel)%nat with (length ls + S fuel)%nat by lia.
    rewrite dispatch_onions; cycle 1.
    { cbn. lia. }
    { lia. }
    { eapply layers_at_prefix; [| exact Hon]. cbn. exact Harr. }
    rewrite Z.add_0_l.
    rewrite (dispatch_run code _ fuel _ _ h); cycle 1.
    { apply (enter_all_currentIndex 0 ls (Compose.start w)). cbn. lia. }
    { lia. }
    { rewrite enter_all_world. cbn [Compose.c_middlewares].
      unfold deref in *. cbn [set_ctx heap Compose.start world].
      rewrite Harr, Nat2Z.id. apply lookup_after_layers. }
    destruct (exec_without_next
                (fun _ => Compose.dispatch code (Compose.mkComposed l fin) fuel
                            (Z.of_nat (length ls) + 1)%Z)
                (code h) _ _ Hbody I) as [Hrun _].
    unfold call_state, entered in Hrun. rewrite Hrun. reflexivity.
  - destruct (exec_without_next (@pending_next C unit) (code h) _ _ Hbody I)
      as [_ [_ Htr]].
    unfold leave_all. cbn [set_world trace]. rewrite Htr.
    unfold call_state, entered. cbn [record set_currentIndex trace].
    rewrite enter_all_trace. cbn. rewrite <- !app_assoc. reflexivity.
Qed.
End Halting.

(** The test 'if a middleware does not call next, later middlewares should
    not execute', behind one onion layer. *)
Lemma halting_handler_witness :
  exists c,
    Compose.composeMiddlewares Scenarios.three_world (VArr 0)
      (Some (Scenarios.thrower "unreached")) = inr c /\
    Compose.composed Scenarios.halting_code c 2 Scenarios.three_world =
      Ok (mkExec
            (mkWorld ["m1-before"; "m2-before"; "m2-after"; "m1-after"]%string
                     [[VFun 0; VFun 1; VFun 2]])
            1%Z
            [EvInvoke 0; EvRun 0 0; EvInvoke 1; EvRun 1 1]) /\
    [EvInvoke 0; EvRun 0 0; EvInvoke 1; EvRun 1 1] =
      [EvInvoke 0; EvRun 0 0; EvInvoke 1; EvRun 1 1].
Proof.
  apply (halting_handler_stops_chain Scenarios.halting_code
           Scenarios.three_world 0%nat [Scenarios.logger 0 "m1"] 1%nat
           [VFun 2] (Some (Scenarios.thrower "unreached")) 0%nat
           (mkExec
              (mkWorld ["m1-before"; "m2-before"; "m2-after"]%string
                       [[VFun 0; VFun 1; VFun 2]])
              1%Z
              [EvInvoke 0; EvRun 0 0; EvInvoke 1; EvRun 1 1])).
  - reflexivity.
  - reflexivity.
  - onions_by_cases.
  - reflexivity.
Defined.

(** ** Rejections *)

Section Rejections.
Context {C : Type} (code : fid -> Middleware C).
Implicit Types (w : World C) (ls : list (Layer C)) (s : Exec C)
  (c : Compose.Composed (C:=C)).

(** A body without [try ... catch] runs up to its first [await next()];
    what the continuation raises there is what the body raises. *)
Lemma exec_until_next {N} (next : N -> Exec C -> Outcome (Exec C))
    (p : Prog C N) :
  catch_free p ->
  forall s,
    exec next p s =
      match until_next p s with
      | inl o => o
      | inr (n, k, s1) =>
          match next n s1 with
          | Ok s2 => exec next k s2
          | Err e s' => Err e s'
          | OutOfFuel s' => OutOfFuel s'
          end
      end.
Proof.
  induction p as [| e | op k IHk | k IHk | n k IHk | body IHb handler IHh k IHk];
    intros Hcf s; cbn [exec until_next catch_free] in *.
  - reflexivity.
  - reflexivity.
  - destruct (op (world s)) as [w1 | e w1 | w1]; [apply IHk; exact Hcf | |];
      reflexivity.
  - apply IHk. apply Hcf.
  - reflexivity.
  - contradiction.
Qed.

Lemma until_next_engine_state {N} (p : Prog C N) :
  forall s n k s1,
    until_next p s = inr (n, k, s1) ->
    currentIndex s1 = currentIndex s /\ trace s1 = trace s.
Proof.
  induction p as [| e | op k0 IHk | k0 IHk | n0 k0 IHk | body IHb handler IHh k0 IHk];
    intros s n k s1 H; cbn [until_next] in H; try discriminate.
  - destruct (op (world s)) as [w1 | e w1 | w1]; try discriminate.
    destruct (IHk _ _ _ _ H) as [Hc Ht]. cbn in Hc, Ht. auto.
  - exact (IHk _ _ _ _ _ H).
  - inversion H; subst. auto.
Qed.

Lemma awaiting_currentIndex c w (i : nat) s :
  awaiting code c w i s -> (currentIndex s < Z.of_nat i)%Z.
Proof.
  induction 1 as [| i s h k s1 Haw IH Hlk Hcf Hun]; [cbn; lia |].
  destruct (until_next_engine_state _ _ _ _ _ Hun) as [Hc _].
  rewrite Hc. cbn. lia.
Qed.

(** A rejection of the continuation call at position [i] is the rejection
    of the composed function: every middleware on the way out passes it
    on as it is and runs nothing more. *)
Lemma awaiting_rejects c w (i : nat) s :
  awaiting code c w i s ->
  forall fuel e s',
    Compose.dispatch code c fuel (Z.of_nat i) s = Err e s' ->
    Compose.composed code c (i + fuel) w = Err e s'.
Proof.
  induction 1 as [| i s h k s1 Haw IH Hlk Hcf Hun]; intros fuel e s' Hd.
  - exact Hd.
  - replace (S i + fuel)%nat with (i + S fuel)%nat by lia.
    apply IH.
    rewrite (dispatch_run code c fuel _ s h); cycle 1.
    { apply (awaiting_currentIndex c w). exact Haw. }
    { lia. }
    { rewrite Nat2Z.id. exact Hlk. }
    rewrite (exec_until_next _ _ Hcf).
    unfold call_state, entered in Hun. rewrite Hun.
    replace (Z.of_nat i + 1)%Z with (Z.of_nat (S i)) by lia.
    rewrite Hd. reflexivity.
Qed.

Lemma enter_all_snoc (index : Z) ls (L : Layer C) s :
  enter_all index (ls ++ [L]) s =
    mkExec (set_ctx (l_pre L) (world (enter_all index ls s)))
           (index + Z.of_nat (length ls))
           (trace (enter_all index ls s) ++
            [EvInvoke (index + Z.of_nat (length ls));
             EvRun (index + Z.of_nat (length ls)) (l_fid L)]).
Proof.
  revert index s. induction ls as [| L' ls IH]; intros index s; cbn [enter_all app length].
  - rewrite Z.add_0_r. reflexivity.
  - rewrite IH. replace (index + 1 + Z.of_nat (length ls))%Z
      with (index + Z.of_nat (S (length ls)))%Z by lia. reflexivity.
Qed.

(** Onion-shaped middlewares at the front of the array are awaiting their
    continuations when the position after them is entered. *)
Lemma awaiting_onions w (l : loc) (fin : option (FinalHandler C)) ls
    (rest : list value) :
  deref w l = layer_values ls ++ rest ->
  onions code ls ->
  awaiting code (Compose.mkComposed l fin) w (length ls)
    (enter_all 0 ls (Compose.start w)).
Proof.
  revert rest. induction ls as [| L ls IH] using rev_ind; intros rest Harr Hon.
  - constructor.
  - rewrite length_app. cbn [length]. rewrite Nat.add_1_r.
    assert (Harr' : deref w l = layer_values ls ++ VFun (l_fid L) :: rest).
    { rewrite Harr, layer_values_app, <- app_assoc. reflexivity. }
    assert (Hon' : onions code ls).
    { intros L' HL'. apply Hon. apply elem_of_app. left. exact HL'. }
    eapply (awaiting_next code _ w (length ls) _ (l_fid L)
              (Modify (l_post L) Return)).
    + exact (IH _ Harr' Hon').
    + rewrite enter_all_world. cbn [Compose.c_middlewares].
      unfold deref in *. cbn [set_ctx heap Compose.start world].
      rewrite Harr'. apply lookup_after_layers.
    + rewrite Hon; [exact I |]. apply elem_of_app. right.
      apply list_elem_of_singleton. reflexivity.
    + rewrite Hon by (apply elem_of_app; right; apply list_elem_of_singleton;
                      reflexivity).
      rewrite enter_all_snoc. rewrite !Z.add_0_l.
      unfold onion, Modify, call_state, entered. cbn [until_next].
      unfold set_world, record, set_currentIndex. cbn.
      rewrite <- app_assoc. reflexivity.
Qed.

End Rejections.


(** ** The guard against a repeated continuation *)

Section Guard.
Context {C : Type} (code : fid -> Middleware C).
Implicit Types (c : Compose.Composed (C:=C)) (s : Exec C).





Lemma catch_free_lets_through {N} (p : Prog C N) :
  catch_free p -> lets_through p.
Proof.
  induction p as [| e | op k IHk | k IHk | n k IHk | body IHb handler IHh k IHk];
    cbn [catch_free lets_through]; auto.
  intros [].
Qed.




End Guard.



(** ** A position without a handler *)

Section Missing.
Context {C : Type} (code : fid -> Middleware C).
Implicit Types (w : World C) (ls : list (Layer C)) (s : Exec C).

(** C8: when the composed function runs, the array holds a falsy value
    [v] (such as [undefined]) at position [i], not the end of the array,
    behind onion-shaped middlewares.  Then the continuation call that
    reaches position [i] resolves at once, having done nothing but the
    guard's bookkeeping; and the composed promise resolves, with the
    teardown code of the middlewares before [i] run, and with nothing
    called at or after position [i]: no later middleware and not the
    final handler. *)
Theorem missing_handler_noop w (l : loc) ls (v : value) (rest : list value)
    (fin : option (FinalHandler C)) (fuel : nat) :
  deref w l = layer_values ls ++ v :: rest ->
  truthy v = false ->
  onions code ls ->
  Compose.dispatch code (Compose.mkComposed l fin) (S fuel)
      (Z.of_nat (length ls)) (enter_all 0 ls (Compose.start w)) =
    Ok (entered (Z.of_nat (length ls)) (enter_all 0 ls (Compose.start w))) /\
  Compose.composed code (Compose.mkComposed l fin) (S (length ls) + fuel) w =
    Ok (mkExec
          (mkWorld (run_post ls (run_pre ls (ctx w))) (heap w))
          (Z.of_nat (length ls))
          (onion_trace 0 ls ++ [EvInvoke (Z.of_nat (length ls))])).
Proof.
  intros Harr Hfalsy Hon.
  assert (Hstep :
    Compose.dispatch code (Compose.mkComposed l fin) (S fuel)
        (Z.of_nat (length ls)) (enter_all 0 ls (Compose.start w)) =
      Ok (entered (Z.of_nat (length ls)) (enter_all 0 ls (Compose.start w)))).
  { apply dispatch_missing.
    - apply (enter_all_currentIndex 0 ls (Compose.start w)). cbn. lia.
    - rewrite enter_all_world. cbn [Compose.c_middlewares].
      unfold deref in *. cbn [set_ctx heap Compose.start world].
      rewrite Harr, length_app, length_layer_values. cbn [length]. lia.
    - rewrite enter_all_world. cbn [Compose.c_middlewares].
      unfold deref in *. cbn [set_ctx heap Compose.start world].
      rewrite Harr. unfold js_index.
      replace (Z.of_nat (length ls) <? 0)%Z with false
        by (symmetry; apply Z.ltb_ge; lia).
      rewrite Nat2Z.id, lookup_after_layers. exact Hfalsy. }
  split; [exact Hstep |].
  unfold Compose.composed.
  replace (S (length ls) + fuel)%nat with (length ls + S fuel)%nat by lia.
  rewrite dispatch_onions; cycle 1.
  { cbn. lia. }
  { lia. }
  { eapply layers_at_prefix; [| exact Hon]. cbn. exact Harr. }
  rewrite Z.add_0_l, Hstep.
  unfold leave_all, entered, set_world, set_currentIndex, record. cbn.
  rewrite enter_all_world, enter_all_trace. reflexivity.
Qed.
End Missing.

(** An array altered after composition: [composeMiddlewares] accepted
    [[m1, m2, m3]], then [arr[1] = undefined], then the composed function
    is called. *)
Lemma missing_handler_witness :
  Compose.composeMiddlewares Scenarios.three_world (VArr 0)
      (Some (Scenarios.thrower "unreached"))
    = inr (Compose.mkComposed 0 (Some (Scenarios.thrower "unreached"))) /\
  Compose.dispatch Scenarios.three_code
      (Compose.mkComposed 0 (Some (Scenarios.thrower "unreached"))) 1 1%Z
      (mkExec (mkWorld ["m1-before"%string] [[VFun 0; VUndefined; VFun 2]]) 0%Z
              [EvInvoke 0; EvRun 0 0]) =
    Ok (mkExec (mkWorld ["m1-before"%string] [[VFun 0; VUndefined; VFun 2]]) 1%Z
               [EvInvoke 0; EvRun 0 0; EvInvoke 1]) /\
  Compose.composed Scenarios.three_code
      (Compose.mkComposed 0 (Some (Scenarios.thrower "unreached"))) 2
      (store 0 [VFun 0; VUndefined; VFun 2] Scenarios.three_world) =
    Ok (mkExec
          (mkWorld ["m1-before"; "m1-after"]%string [[VFun 0; VUndefined; VFun 2]])
          1%Z
          [EvInvoke 0; EvRun 0 0; EvInvoke 1]).
Proof.
  split; [reflexivity |].
  apply (missing_handler_noop Scenarios.three_code
           (store 0 [VFun 0; VUndefined; VFun 2] Scenarios.three_world) 0%nat
           [Scenarios.logger 0 "m1"] VUndefined [VFun 2]
           (Some (Scenarios.thrower "unreached")) 0%nat).
  - reflexivity.
  - reflexivity.
  - onions_by_cases.
Defined.

(** ** Validation at the two entry points *)

Section Validation.
Context {C : Type} (code : fid -> Middleware C).
Implicit Types (w : World C).

Lemma forallb_false_elem (xs : list value) :
  forallb is_function xs = false <->
  exists x, x ∈ xs /\ is_function x = false.
Proof.
  induction xs as [| a xs IH]; cbn.
  - split; [discriminate | intros [x [Hx _]]; inversion Hx].
  - rewrite andb_false_iff, IH. split.
    + intros [Ha | [x [Hx Hf]]].
      * exists a. split; [apply elem_of_cons; left; reflexivity | exact Ha].
      * exists x. split; [apply elem_of_cons; right; exact Hx | exact Hf].
    + intros [x [Hx Hf]]. apply elem_of_cons in Hx as [-> | Hx]; eauto.
Qed.

(** C7: [composeMiddlewares] throws exactly when its argument is not an
    array or the array has an element that is not a function, and what it
    throws is a [TypeError]; it is a function of its arguments alone, so
    no handler has run.  [use] throws exactly when its argument is not a
    function, and what it throws is a [TypeError].  A [dispatch] whose
    registry fails the validation is rejected in the state it started
    in, with nothing called. *)
Theorem validation_at_entry w (m : value) (fin : option (FinalHandler C))
    (en : Engine) (v : value) (fuel : nat) :
  ((exists e, Compose.composeMiddlewares w m fin = inl e) <->
     (isArray m = false \/
      exists l x, m = VArr l /\ x ∈ deref w l /\ is_function x = false)) /\
  (forall e, Compose.composeMiddlewares w m fin = inl e ->
     exists msg, e = TypeError msg) /\
  ((exists e w', MiddlewareEngine.use en v w = Err e w') <->
     is_function v = false) /\
  (forall e w', MiddlewareEngine.use en v w = Err e w' ->
     exists msg, e = TypeError msg) /\
  settled (MiddlewareEngine.use en v w) /\
  (forall e,
     Compose.composeMiddlewares w (VArr (middlewares en)) fin = inl e ->
     MiddlewareEngine.dispatch code fuel en fin None w = Err e (Compose.start w)).
Proof.
  repeat split.
  - intros [e He]. unfold Compose.composeMiddlewares in He.
    destruct m as [| | b | n | str | f | l]; try (left; reflexivity).
    right. destruct (forallb is_function (deref w l)) eqn:Hall; [discriminate |].
    apply forallb_false_elem in Hall as [x [Hx Hf]]. eauto.
  - intros [Hna | (l & x & -> & Hx & Hf)].
    + destruct m; try discriminate; eexists; reflexivity.
    + unfold Compose.composeMiddlewares.
      replace (forallb is_function (deref w l)) with false; [eexists; reflexivity |].
      symmetry. apply forallb_false_elem. eauto.
  - intros e He. unfold Compose.composeMiddlewares in He.
    destruct m as [| | b | n | str | f | l];
      try (inversion He; eexists; reflexivity).
    destruct (forallb is_function (deref w l)); inversion He. eexists; reflexivity.
  - intros (e & w' & He). unfold MiddlewareEngine.use in He.
    destruct (is_function v); [discriminate | reflexivity].
  - intros Hf. unfold MiddlewareEngine.use. rewrite Hf. eauto.
  - intros e w' He. unfold MiddlewareEngine.use in He.
    destruct (is_function v); inversion He. eexists; reflexivity.
  - unfold MiddlewareEngine.use. destruct (is_function v); exact I.
  - intros e He. unfold MiddlewareEngine.dispatch. rewrite He. reflexivity.
Qed.
End Validation.

(** The tests 'should validate that middlewares must be an array' and
    'should validate that each middleware must be a function'. *)
Lemma validation_witness :
  (exists e, Compose.composeMiddlewares (Scenarios.world_of []) (VStr "not an array")
               (@None (FinalHandler Scenarios.TestContext)) = inl e) /\
  (exists e, Compose.composeMiddlewares
               (Scenarios.world_of [[VFun 0; VStr "not a function"]]) (VArr 0)
               (@None (FinalHandler Scenarios.TestContext)) = inl e).
Proof.
  split.
  - apply (validation_at_entry Scenarios.three_code (Scenarios.world_of [])
             (VStr "not an array") None (mkEngine 0) VNull 0).
    left. reflexivity.
  - apply (validation_at_entry Scenarios.three_code
             (Scenarios.world_of [[VFun 0; VStr "not a function"]])
             (VArr 0) None (mkEngine 0) VNull 0).
    right. exists 0%nat, (VStr "not a function"). split; [reflexivity |].
    split; [| reflexivity].
    apply elem_of_cons. right. apply elem_of_cons. left. reflexivity.
Defined.

(** ** A failed registration *)

Section FailedUse.
Context {C : Type} (code : fid -> Middleware C).
Implicit Types (w : World C).

(** C10: [use] with an argument that is not a function throws its
    [TypeError] in the very state it was called in: the registry, and
    the whole world, are as before the call, so [getMiddlewares] and
    every later [dispatch] do what they would have done without the
    call. *)
Theorem use_atomic_on_failure (en : Engine) (v : value) w :
  is_function v = false ->
  let after := state_of (MiddlewareEngine.use en v w) in
  MiddlewareEngine.use en v w =
    Err (TypeError "Middleware must be a function") w /\
  after = w /\
  deref after (middlewares en) = deref w (middlewares en) /\
  MiddlewareEngine.getMiddlewares en after = MiddlewareEngine.getMiddlewares en w /\
  forall fuel fin extra,
    MiddlewareEngine.dispatch code fuel en fin extra after =
    MiddlewareEngine.dispatch code fuel en fin extra w.
Proof.
  intros Hf after. subst after. unfold MiddlewareEngine.use. rewrite Hf.
  cbn [state_of]. auto.
Qed.
End FailedUse.

(** The test 'should validate that middleware must be a function'. *)
Lemma use_atomic_witness :
  MiddlewareEngine.use (mkEngine 0) (VStr "not a function") Scenarios.one_world =
    Err (TypeError "Middleware must be a function") Scenarios.one_world /\
  Scenarios.one_world = Scenarios.one_world /\
  deref Scenarios.one_world 0 = [VFun 0] /\
  MiddlewareEngine.getMiddlewares (mkEngine 0) Scenarios.one_world =
    (1%nat, Scenarios.world_of [[VFun 0]; [VFun 0]]) /\
  forall fuel fin extra,
    MiddlewareEngine.dispatch Scenarios.one_code fuel (mkEngine 0) fin extra
      Scenarios.one_world =
    MiddlewareEngine.dispatch Scenarios.one_code fuel (mkEngine 0) fin extra
      Scenarios.one_world.
Proof.
  apply (use_atomic_on_failure Scenarios.one_code (mkEngine 0)
           (VStr "not a function") Scenarios.one_world).
  reflexivity.
Defined.

(** ** The copy [getMiddlewares] returns *)

Section Copy.
Context {C : Type} (code : fid -> Middleware C).
Implicit Types (w : World C) (s : Exec C) (c : Compose.Composed (C:=C)).

Lemma agree_deref (l l' : loc) w1 w2 :
  agree l w1 w2 -> l' <> l -> deref w1 l' = deref w2 l'.
Proof. intros (_ & _ & H) Hne. unfold deref. rewrite (H l' Hne). reflexivity. Qed.

(** Whatever is written into the array at [l], the world differs from
    the old one only there. *)
Lemma agree_store (l : loc) (xs : list value) w : agree l (store l xs w) w.
Proof.
  unfold agree, store. cbn. repeat split.
  - apply length_insert.
  - intros l' Hne. apply list_lookup_insert_ne. congruence.
Qed.

Lemma agree_alloc (l : loc) (xs : list value) w1 w2 :
  agree l w1 w2 ->
  fst (alloc xs w1) = fst (alloc xs w2) /\
  agree l (snd (alloc xs w1)) (snd (alloc xs w2)).
Proof.
  intros (Hc & Hl & Hh). unfold alloc. cbn. split; [exact Hl |].
  repeat split; cbn.
  - exact Hc.
  - rewrite !length_app, Hl. reflexivity.
  - intros l' Hne.
    destruct (decide (l' < length (heap w1))%nat) as [Hlt | Hge].
    + rewrite !lookup_app_l by lia. apply Hh. exact Hne.
    + rewrite !lookup_app_r by lia. rewrite Hl. reflexivity.
Qed.

Lemma agree_exec_record (l : loc) ev s1 s2 :
  agree_exec l s1 s2 -> agree_exec l (record ev s1) (record ev s2).
Proof. intros (Hw & Hc & Ht). unfold agree_exec. cbn. rewrite Ht. auto. Qed.

Lemma agree_exec_set_currentIndex (l : loc) i s1 s2 :
  agree_exec l s1 s2 ->
  agree_exec l (set_currentIndex i s1) (set_currentIndex i s2).
Proof. intros (Hw & Hc & Ht). unfold agree_exec. cbn. auto. Qed.

(** A body that ignores the array at [l] cannot tell the two worlds
    apart, if its continuation cannot. *)
Lemma exec_agree {N} (l : loc) (next : N -> Exec C -> Outcome (Exec C))
    (p : Prog C N) :
  ignores l p ->
  (forall n s1 s2, agree_exec l s1 s2 ->
     agree_out (agree_exec l) (next n s1) (next n s2)) ->
  forall s1 s2, agree_exec l s1 s2 ->
    agree_out (agree_exec l) (exec next p s1) (exec next p s2).
Proof.
  intros Hig Hnext.
  induction p as [| e | op k IHk | k IHk | n k IHk | body IHb handler IHh k IHk];
    intros s1 s2 Hs; cbn [exec ignores] in *.
  - exact Hs.
  - split; [reflexivity | exact Hs].
  - destruct Hig as [Hop Hk]. destruct Hs as (Hw & Hc & Ht).
    specialize (Hop _ _ Hw).
    destruct (op (world s1)) as [a | e1 a | a], (op (world s2)) as [b | e2 b | b];
      cbn in Hop; try contradiction.
    + apply IHk; [exact Hk |]. unfold agree_exec. cbn. auto.
    + destruct Hop as [-> Hab]. split; [reflexivity |]. unfold agree_exec. cbn. auto.
    + unfold agree_exec. cbn. auto.
  - destruct Hig as [Hsame Hk]. destruct Hs as (Hw & Hc & Ht).
    rewrite (Hsame _ _ Hw). apply IHk; [apply Hk |]. unfold agree_exec. auto.
  - specialize (Hnext n _ _ Hs).
    destruct (next n s1) as [a | e1 a | a], (next n s2) as [b | e2 b | b];
      cbn in Hnext; try contradiction.
    + apply IHk; [exact Hig | exact Hnext].
    + exact Hnext.
    + exact Hnext.
  - destruct Hig as (Hb & Hh & Hk).
    specialize (IHb Hb _ _ Hs).
    destruct (exec next body s1) as [a | e1 a | a],
             (exec next body s2) as [b | e2 b | b]; cbn in IHb; try contradiction.
    + apply IHk; [exact Hk | exact IHb].
    + destruct IHb as [-> Hab].
      specialize (IHh e2 (Hh e2) _ _ Hab).
      destruct (exec next (handler e2) a) as [a' | e1' a' | a'],
               (exec next (handler e2) b) as [b' | e2' b' | b'];
        cbn in IHh; try contradiction.
      * apply IHk; [exact Hk | exact IHh].
      * exact IHh.
      * exact IHh.
    + exact IHb.
Qed.

(** [dispatch] over an array other than [l] cannot tell the two worlds
    apart. *)
Lemma dispatch_agree (l : loc) c fuel :
  (forall f, ignores l (code f)) ->
  (forall fh, Compose.c_finalHandler c = Some fh -> ignores l fh) ->
  Compose.c_middlewares c <> l ->
  forall index s1 s2, agree_exec l s1 s2 ->
    agree_out (agree_exec l) (Compose.dispatch code c fuel index s1)
                             (Compose.dispatch code c fuel index s2).
Proof.
  intros Hcode Hfin Hne.
  induction fuel as [| fuel IH]; intros index s1 s2 Hs; [exact Hs |].
  rewrite !dispatch_unfold. cbn zeta.
  pose proof (agree_exec_record l (EvInvoke index) _ _ Hs) as Hs1.
  destruct Hs as (Hw & Hc & Ht).
  cbn [record currentIndex]. rewrite <- Hc.
  destruct (index <=? currentIndex s1)%Z.
  { split; [reflexivity | exact Hs1]. }
  pose proof (agree_exec_set_currentIndex l index _ _ Hs1) as Hs2.
  cbn [set_currentIndex record world].
  rewrite <- (agree_deref l _ _ _ Hw Hne).
  destruct (index =? _)%Z.
  { destruct (Compose.c_finalHandler c) as [fh |] eqn:Hfh; [| exact Hs2].
    apply exec_agree.
    - apply Hfin. reflexivity.
    - intros [].
    - apply agree_exec_record. exact Hs2. }
  destruct (negb _); [exact Hs2 |].
  destruct (js_index _ index) as [| | b | n | str | f | l0];
    try (split; [reflexivity | exact Hs2]).
  apply exec_agree.
  - apply Hcode.
  - intros _ a b Hab. apply IH. exact Hab.
  - apply agree_exec_record. exact Hs2.
Qed.

(** So cannot the engine's [dispatch], unless it is handed the array at
    [l] as its extra middlewares. *)
Lemma engine_dispatch_agree (l : loc) (en : Engine) fuel
    (fin : option (FinalHandler C)) (extra : option loc) w1 w2 :
  (forall f, ignores l (code f)) ->
  (forall fh, fin = Some fh -> ignores l fh) ->
  middlewares en <> l ->
  extra <> Some l ->
  (l < length (heap w1))%nat ->
  agree l w1 w2 ->
  agree_out (agree_exec l)
    (MiddlewareEngine.dispatch code fuel en fin extra w1)
    (MiddlewareEngine.dispatch code fuel en fin extra w2).
Proof.
  intros Hcode Hfin Hen Hex Hl Hw.
  unfold MiddlewareEngine.dispatch.
  assert (Hstart : forall a b : World C, agree l a b ->
            agree_exec l (Compose.start a) (Compose.start b)).
  { intros a b Hab. unfold agree_exec. cbn. auto. }
  destruct extra as [ex |].
  - assert (Hexl : ex <> l) by congruence.
    rewrite <- (agree_deref l _ _ _ Hw Hen), <- (agree_deref l _ _ _ Hw Hexl).
    destruct (agree_alloc l (deref w1 (middlewares en) ++ deref w1 ex) _ _ Hw)
      as [Hloc Hw'].
    destruct (alloc _ w1) as [l1 w1'] eqn:Ha1, (alloc _ w2) as [l2 w2'] eqn:Ha2.
    cbn in Hloc, Hw'. subst l2.
    assert (Hl1 : l1 <> l).
    { unfold alloc in Ha1. inversion Ha1. lia. }
    unfold Compose.composeMiddlewares.
    rewrite <- (agree_deref l _ _ _ Hw' Hl1).
    destruct (forallb is_function (deref w1' l1)).
    + unfold Compose.composed. apply dispatch_agree; auto.
    + split; [reflexivity | auto].
  - unfold Compose.composeMiddlewares.
    rewrite <- (agree_deref l _ _ _ Hw Hen).
    destruct (forallb is_function (deref w1 (middlewares en))).
    + unfold Compose.composed. apply dispatch_agree; auto.
    + split; [reflexivity | auto].
Qed.
End Copy.

Section CopyTheorem.
Context {C : Type} (code : fid -> Middleware C).
Implicit Types (w : World C) (s : Exec C) (c : Compose.Composed (C:=C)).

Lemma ignores_Modify {N} (l : loc) (f : C -> C) (k : Prog C N) :
  ignores l k -> ignores l (Modify f k).
Proof.
  intros Hk. cbn. split; [| exact Hk].
  intros w1 w2 (Hc & Hl & Hh). cbn. unfold agree, set_ctx. cbn.
  rewrite Hc. auto.
Qed.

Lemma ignores_onion (l : loc) (pre post : C -> C) : ignores l (onion pre post).
Proof.
  unfold onion. apply ignores_Modify. cbn [ignores].
  apply ignores_Modify. exact I.
Qed.

(** C9: [getMiddlewares] returns a new array with the registry's
    elements; the registry is not that array and still has its
    elements.  Whatever is then written into the returned array
    (elements appended, removed, replaced), the registry still has its
    elements; and as long as no handler looks into the returned array
    and it is not itself handed to [dispatch], a later [dispatch] on the
    engine, and every step of a composed chain in flight (a continuation
    call, the rest of a handler body), settles the same way, with the
    same context, the same calls, and the same arrays but the returned
    one. *)
Theorem getMiddlewares_returns_copy (en : Engine) w (xs : list value)
    (fuel : nat) (fin : option (FinalHandler C)) (extra : option loc)
    c (index cur : Z) (tr : list event) (p : Middleware C) :
  let l := fst (MiddlewareEngine.getMiddlewares en w) in
  let w1 := snd (MiddlewareEngine.getMiddlewares en w) in
  (middlewares en < length (heap w))%nat ->
  (forall f, ignores l (code f)) ->
  (forall fh, fin = Some fh -> ignores l fh) ->
  (forall fh, Compose.c_finalHandler c = Some fh -> ignores l fh) ->
  ignores l p ->
  extra <> Some l ->
  Compose.c_middlewares c <> l ->
  l <> middlewares en /\
  deref w1 l = deref w (middlewares en) /\
  deref w1 (middlewares en) = deref w (middlewares en) /\
  deref (store l xs w1) (middlewares en) = deref w (middlewares en) /\
  agree_out (agree_exec l)
    (MiddlewareEngine.dispatch code fuel en fin extra (store l xs w1))
    (MiddlewareEngine.dispatch code fuel en fin extra w1) /\
  agree_out (agree_exec l)
    (Compose.dispatch code c fuel index (mkExec (store l xs w1) cur tr))
    (Compose.dispatch code c fuel index (mkExec w1 cur tr)) /\
  agree_out (agree_exec l)
    (exec (fun _ => Compose.dispatch code c fuel index) p
          (mkExec (store l xs w1) cur tr))
    (exec (fun _ => Compose.dispatch code c fuel index) p (mkExec w1 cur tr)).
Proof.
  intros l w1 Hen Hcode Hfin Hcfin Hp Hex Hc.
  assert (Hl : l = length (heap w)) by reflexivity.
  assert (Hne : l <> middlewares en) by lia.
  assert (Hreg : deref w1 (middlewares en) = deref w (middlewares en)).
  { unfold deref. subst w1. cbn. rewrite lookup_app_l by exact Hen. reflexivity. }
  assert (Hag : agree l (store l xs w1) w1) by apply agree_store.
  assert (Hags : agree_exec l (mkExec (store l xs w1) cur tr) (mkExec w1 cur tr)).
  { unfold agree_exec. cbn. auto. }
  repeat split.
  - exact Hne.
  - unfold deref at 1. subst l w1. cbn. rewrite lookup_app_r by lia.
    rewrite Nat.sub_diag. reflexivity.
  - exact Hreg.
  - rewrite (agree_deref l (middlewares en) _ _ Hag) by congruence. exact Hreg.
  - apply engine_dispatch_agree; auto.
    unfold store. cbn. rewrite length_insert, length_app. cbn. lia.
  - apply dispatch_agree; auto.
  - apply exec_agree; [exact Hp | | exact Hags].
    intros _ s1 s2 Hs. apply dispatch_agree; auto.
Qed.
End CopyTheorem.

(** The returned copy of a one-element registry is overwritten, while the
    registered middleware is waiting for its continuation; the
    continuation call in flight, the rest of the middleware's body, and a
    later dispatch do what they would have done. *)
Lemma getMiddlewares_copy_witness :
  1%nat <> 0%nat /\
  deref (mkWorld ["before"%string] [[VFun 0]; [VFun 0]]) 1 = [VFun 0] /\
  deref (mkWorld ["before"%string] [[VFun 0]; [VFun 0]]) 0 = [VFun 0] /\
  deref (mkWorld ["before"%string] [[VFun 0]; [VFun 0; VFun 7; VStr "junk"]]) 0
    = [VFun 0] /\
  agree_out (agree_exec 1)
    (MiddlewareEngine.dispatch Scenarios.one_code 2 (mkEngine 0) None None
       (mkWorld ["before"%string] [[VFun 0]; [VFun 0; VFun 7; VStr "junk"]]))
    (Ok (mkExec (mkWorld ["before"; "before"; "after"]%string [[VFun 0]; [VFun 0]])
                1%Z [EvInvoke 0; EvRun 0 0; EvInvoke 1])) /\
  agree_out (agree_exec 1)
    (Compose.dispatch Scenarios.one_code (Compose.mkComposed 0 None) 2 1%Z
       (mkExec (mkWorld ["before"%string] [[VFun 0]; [VFun 0; VFun 7; VStr "junk"]])
               0%Z [EvInvoke 0; EvRun 0 0]))
    (Ok (mkExec (mkWorld ["before"%string] [[VFun 0]; [VFun 0]]) 1%Z
                [EvInvoke 0; EvRun 0 0; EvInvoke 1])) /\
  agree_out (agree_exec 1)
    (exec (fun _ => Compose.dispatch Scenarios.one_code (Compose.mkComposed 0 None)
                      2 1%Z)
       (Next tt (Modify (Scenarios.push "after") Return))
       (mkExec (mkWorld ["before"%string] [[VFun 0]; [VFun 0; VFun 7; VStr "junk"]])
               0%Z [EvInvoke 0; EvRun 0 0]))
    (Ok (mkExec (mkWorld ["before"; "after"]%string [[VFun 0]; [VFun 0]]) 1%Z
                [EvInvoke 0; EvRun 0 0; EvInvoke 1])).
Proof.
  apply (getMiddlewares_returns_copy Scenarios.one_code (mkEngine 0)
           (mkWorld ["before"%string] [[VFun 0]])
           [VFun 0; VFun 7; VStr "junk"] 2 None None
           (Compose.mkComposed 0 None) 1%Z 0%Z [EvInvoke 0; EvRun 0 0]
           (Next tt (Modify (Scenarios.push "after") Return))).
  - cbn. lia.
  - intros [| f]; [apply ignores_onion | exact I].
  - discriminate.
  - discriminate.
  - cbn [ignores]. apply ignores_Modify. exact I.
  - discriminate.
  - cbn. lia.
Defined.

(** ** Extra middlewares *)

Section Extras.
Context {C : Type} (code : fid -> Middleware C).
Implicit Types (w : World C) (R E : list (Layer C)).

End Extras.


(** ** Fuel *)

Section Fuel.
Context {C : Type} (code : fid -> Middleware C).
Implicit Types (c : Compose.Composed (C:=C)) (s : Exec C).

(** A body settles the same way under a continuation that settles
    wherever the first one does. *)
Lemma exec_next_mono {N} (next1 next2 : N -> Exec C -> Outcome (Exec C))
    (p : Prog C N) :
  (forall n s o, next1 n s = o -> settled o -> next2 n s = o) ->
  forall s o, exec next1 p s = o -> settled o -> exec next2 p s = o.
Proof.
  intros Hnext.
  induction p as [| e | op k IHk | k IHk | n k IHk | body IHb handler IHh k IHk];
    intros s o Ho Hne; cbn [exec] in *.
  - exact Ho.
  - exact Ho.
  - destruct (op (world s)) as [w1 | e w1 | w1]; auto.
  - apply IHk; assumption.
  - destruct (next1 n s) as [s1 | e s1 | s1] eqn:H1.
    + rewrite (Hnext n s (Ok s1) H1 I). apply IHk; assumption.
    + rewrite (Hnext n s (Err e s1) H1 I). exact Ho.
    + subst o. contradiction.
  - destruct (exec next1 body s) as [s1 | e s1 | s1] eqn:Hb.
    + rewrite (IHb s (Ok s1) Hb I). apply IHk; assumption.
    + rewrite (IHb s (Err e s1) Hb I).
      destruct (exec next1 (handler e) s1) as [s2 | e2 s2 | s2] eqn:Hh.
      * rewrite (IHh e s1 (Ok s2) Hh I). apply IHk; assumption.
      * rewrite (IHh e s1 (Err e2 s2) Hh I). exact Ho.
      * subst o. contradiction.
    + subst o. contradiction.
Qed.

(** Once [dispatch] settles, more fuel does not change the outcome. *)
Lemma dispatch_fuel_mono c (fuel : nat) :
  forall index s o,
    Compose.dispatch code c fuel index s = o -> settled o ->
    forall k, Compose.dispatch code c (fuel + k) index s = o.
Proof.
  induction fuel as [| fuel IH]; intros index s o Ho Hne k.
  - cbn in Ho. subst o. contradiction.
  - change (S fuel + k)%nat with (S (fuel + k)).
    rewrite dispatch_unfold in *. cbn zeta in *.
    destruct (index <=? _)%Z; [exact Ho |].
    destruct (index =? _)%Z; [exact Ho |].
    destruct (negb _); [exact Ho |].
    destruct (js_index _ index) as [| | b | n | str | f | l]; try exact Ho.
    eapply exec_next_mono; [| exact Ho | exact Hne].
    intros u s1 o1 H1 Hne1. cbn beta in H1. apply IH; assumption.
Qed.

Lemma composed_fuel_mono c (fuel k : nat) (w : World C) o :
  Compose.composed code c fuel w = o -> settled o ->
  Compose.composed code c (fuel + k) w = o.
Proof. intros Ho Hne. unfold Compose.composed in *. apply dispatch_fuel_mono; assumption. Qed.
End Fuel.

(** ** What holds for arbitrary handlers *)

Section AnyHandlers.
Context {C : Type} (code : fid -> Middleware C).
Implicit Types (c : Compose.Composed (C:=C)) (s : Exec C).

(** Whatever the handlers do, the middlewares and the final handler are
    called at strictly increasing positions. *)
Lemma positions_called_increase c (fuel : nat) (w : World C) :
  holds (fun s' => StronglySorted Z.lt (started (trace s')))
        (Compose.composed code c fuel w).
Proof.
  eapply holds_impl; [| apply composed_wf]. intros s' Hwf.
  exact (wf_started_sorted _ Hwf).
Qed.

(** Whatever the handlers do, the final handler is called at most once. *)
Lemma final_called_at_most_once c (fuel : nat) (w : World C) :
  holds (fun s' => (final_calls (trace s') <= 1)%nat)
        (Compose.composed code c fuel w).
Proof.
  eapply holds_impl; [| apply composed_wf]. intros s' Hwf.
  apply wf_final_calls. exact Hwf.
Qed.

(** Whatever the handlers do, if the continuation of position [i] was
    never called, nothing was called at a position after [i]. *)
Lemma nothing_after_uncalled_continuation c (fuel : nat) (w : World C) (i : Z) :
  (0 <= i)%Z ->
  holds (fun s' => EvInvoke (i + 1) ∉ trace s' ->
                   forall j, j ∈ started (trace s') -> (j <= i)%Z)
        (Compose.composed code c fuel w).
Proof.
  intros Hi. eapply holds_impl; [| apply composed_wf]. intros s' Hwf Hnot.
  apply wf_started_chain; assumption.
Qed.
End AnyHandlers.

(** ** The chain of a dispatch with extra middlewares is a snapshot *)

Section Snapshot.
Context {C : Type} (code : fid -> Middleware C).
Implicit Types (c : Compose.Composed (C:=C)) (s : Exec C) (w : World C).

Lemma exec_frames {N} (l : loc) (P : Exec C -> Prop)
    (next : N -> Exec C -> Outcome (Exec C)) (p : Prog C N) :
  frames l p ->
  (forall s w', P s -> heap w' !! l = heap (world s) !! l -> P (set_world w' s)) ->
  (forall n s, P s -> holds P (next n s)) ->
  forall s, P s -> holds P (exec next p s).
Proof.
  intros Hfr Hworld Hnext.
  induction p as [| e | op k IHk | k IHk | n k IHk | body IHb handler IHh k IHk];
    intros s HP; cbn [exec frames] in *.
  - exact HP.
  - exact HP.
  - destruct Hfr as [Hop Hk]. specialize (Hop (world s)).
    destruct (op (world s)) as [w1 | e w1 |]; cbn in *; auto.
  - apply IHk; [apply Hfr | exact HP].
  - specialize (Hnext n s HP). destruct (next n s) as [s1 | e s1 |]; cbn in *; auto.
  - destruct Hfr as (Hb & Hh & Hk). specialize (IHb Hb s HP).
    destruct (exec next body s) as [s1 | e s1 |]; cbn in *; auto.
    specialize (IHh e (Hh e) s1 IHb).
    destruct (exec next (handler e) s1) as [s2 | e2 s2 |]; cbn in *; auto.
Qed.

(** As long as no handler writes the array of the chain, the middlewares
    called are those the array held at the start. *)
Lemma dispatch_snapshot (l : loc) (arr : list value) c (fuel : nat) :
  Compose.c_middlewares c = l ->
  (forall f, frames l (code f)) ->
  (forall fh, Compose.c_finalHandler c = Some fh -> frames l fh) ->
  forall index s,
    heap (world s) !! l = Some arr -> runs_from arr s ->
    holds (fun s' => heap (world s') !! l = Some arr /\ runs_from arr s')
          (Compose.dispatch code c fuel index s).
Proof.
  intros Hc Hcode Hfin.
  assert (Hrec : forall ev s, (forall i f, ev <> EvRun i f) ->
            runs_from arr s -> runs_from arr (record ev s)).
  { intros ev s Hev Hr i f Hin. cbn in Hin.
    apply elem_of_app in Hin as [Hin | Hin]; [exact (Hr _ _ Hin) |].
    apply list_elem_of_singleton in Hin. exfalso. exact (Hev _ _ (eq_sym Hin)). }
  assert (Hstable : forall s w',
            heap (world s) !! l = Some arr /\ runs_from arr s ->
            heap w' !! l = heap (world s) !! l ->
            heap (world (set_world w' s)) !! l = Some arr /\
            runs_from arr (set_world w' s)).
  { intros s w' [Hh Hr] Hsame. cbn. split; [congruence | exact Hr]. }
  induction fuel as [| fuel IH]; intros index s Hheap Hruns;
    [split; assumption |].
  rewrite dispatch_unfold. cbn zeta.
  pose proof (Hrec (EvInvoke index) s ltac:(discriminate) Hruns) as Hr1.
  destruct (index <=? _)%Z; [cbn; auto |].
  cbn [set_currentIndex record world]. rewrite Hc.
  destruct (index =? _)%Z.
  { destruct (Compose.c_finalHandler c) as [fh |] eqn:Hfh; [| cbn; auto].
    apply (exec_frames l); [apply Hfin; reflexivity | exact Hstable | intros [] |].
    split; [exact Hheap |]. apply Hrec; [discriminate | exact Hr1]. }
  destruct (negb _); [cbn; auto |].
  destruct (js_index _ index) as [| | b | n | str | f | l0] eqn:Hidx;
    try (cbn; auto; fail).
  apply (exec_frames l); [apply Hcode | exact Hstable | |].
  - intros _ s1 [Hh1 Hr1']. apply IH; assumption.
  - split; [exact Hheap |].
    intros i g Hin. cbn in Hin.
    apply elem_of_app in Hin as [Hin | Hin]; [exact (Hr1 _ _ Hin) |].
    apply list_elem_of_singleton in Hin. inversion Hin; subst i g.
    unfold js_index, deref in Hidx. rewrite Hheap in Hidx. cbn in Hidx.
    destruct (index <? 0)%Z eqn:Hneg; [discriminate |].
    apply Z.ltb_ge in Hneg. split; [exact Hneg |].
    destruct (arr !! Z.to_nat index) as [v |]; cbn in Hidx; [| discriminate].
    subst v. reflexivity.
Qed.

(** A registration on an engine leaves every array but the registry
    alone. *)
Lemma use_frames (l : loc) (en : Engine) (v : value) w :
  middlewares en <> l ->
  holds (fun w' => heap w' !! l = heap w !! l) (MiddlewareEngine.use en v w).
Proof.
  intros Hne. unfold MiddlewareEngine.use.
  destruct (is_function v); cbn; [| reflexivity].
  apply list_lookup_insert_ne. exact Hne.
Qed.

(** The path of [dispatch] with extra middlewares: the chain is the
    registry followed by the extra middlewares, as they were when the
    dispatch began.  Only they are called, at their positions in that
    chain, whatever is registered while the dispatch runs.  (The chain's
    array is local to [dispatch]; no handler holds a reference to it.) *)
Lemma snapshot_with_extras (en : Engine) (extra : loc)
    (fin : option (FinalHandler C)) (fuel : nat) w :
  (forall f, frames (length (heap w)) (code f)) ->
  (forall fh, fin = Some fh -> frames (length (heap w)) fh) ->
  holds (runs_from (deref w (middlewares en) ++ deref w extra))
        (MiddlewareEngine.dispatch code fuel en fin (Some extra) w).
Proof.
  intros Hcode Hfin. unfold MiddlewareEngine.dispatch, alloc.
  set (arr := deref w (middlewares en) ++ deref w extra).
  set (w1 := mkWorld (ctx w) (heap w ++ [arr])).
  destruct (Compose.composeMiddlewares w1 (VArr (length (heap w))) fin)
    as [e | c] eqn:Hc.
  - cbn. intros i f Hin. inversion Hin.
  - unfold Compose.composeMiddlewares in Hc.
    destruct (forallb is_function (deref w1 (length (heap w)))); inversion Hc; subst c.
    unfold Compose.composed.
    eapply holds_impl;
      [| apply (dispatch_snapshot (length (heap w)) arr); auto].
    + cbn. intros s' [_ Hr]. exact Hr.
    + cbn. rewrite lookup_app_r by lia. rewrite Nat.sub_diag. reflexivity.
    + intros i f Hin. inversion Hin.
Qed.

Lemma frames_Modify {N} (l : loc) (f : C -> C) (k : Prog C N) :
  frames l k -> frames l (Modify f k).
Proof. intros Hk. cbn. split; [intros w; reflexivity | exact Hk]. Qed.
End Snapshot.

(** The registration during a dispatch, with extra middlewares: for every
    amount of fuel, only the middleware registered when the dispatch
    began is called. *)
Example snapshot_late_registration (fuel : nat) :
  holds (runs_from [VFun 0])
    (MiddlewareEngine.dispatch Scenarios.late_code fuel (mkEngine 0) None
       (Some 1%nat) Scenarios.late_world).
Proof.
  apply (snapshot_with_extras Scenarios.late_code (mkEngine 0) 1%nat None fuel
           Scenarios.late_world).
  - intros [| [| f]]; cbn [Scenarios.late_code Scenarios.table default lookup
                           list_lookup Scenarios.registrar].
    + apply frames_Modify. cbn [frames]. split.
      * intros w. apply use_frames. cbn. lia.
      * apply frames_Modify. exact I.
    + apply frames_Modify. cbn [frames]. apply frames_Modify. exact I.
    + exact I.
  - discriminate.
Qed.

(** ** A registration during a dispatch *)

(** C1, at a concrete input.  The registry holds one middleware, which
    registers the middleware [late] before it awaits its continuation.
    A dispatch with (empty) extra middlewares runs over a copy of the
    registry taken at its start: [late] is registered and does not run.
    A dispatch without extra middlewares runs over the registry itself:
    [late] runs at position 1 of the dispatch during which it was
    registered. *)
Theorem late_registration_runs_in_flight :
  MiddlewareEngine.dispatch Scenarios.late_code 3 (mkEngine 0) None (Some 1%nat)
      Scenarios.late_world =
    Ok (mkExec
          (mkWorld ["m1-before"; "m1-after"]%string
                   [[VFun 0; VFun 1]; []; [VFun 0]])
          1%Z
          [EvInvoke 0; EvRun 0 0; EvInvoke 1]) /\
  MiddlewareEngine.dispatch Scenarios.late_code 3 (mkEngine 0) None None
      Scenarios.late_world =
    Ok (mkExec
          (mkWorld ["m1-before"; "late-before"; "late-after"; "m1-after"]%string
                   [[VFun 0; VFun 1]; []])
          2%Z
          [EvInvoke 0; EvRun 0 0; EvInvoke 1; EvRun 1 1; EvInvoke 2]).
Proof. split; reflexivity. Qed.

(** Over the live registry the nesting of [dispatch] has no bound: a
    middleware that registers itself again keeps the end of the chain one
    position away, and no amount of fuel lets the run return.  (On a
    JavaScript engine the nesting is that of the call stack: such a run
    ends when the stack is exhausted, in a rejection with a
    [RangeError].) *)
Lemma self_registration_dispatch (fuel : nat) :
  forall (n : nat) (s : Exec Scenarios.TestContext),
    deref (world s) 0 = replicate (S n) (VFun 0) ->
    (currentIndex s < Z.of_nat n)%Z ->
    ~ settled (Compose.dispatch Scenarios.self_registering
                 (Compose.mkComposed 0 None) fuel (Z.of_nat n) s).
Proof.
  induction fuel as [| fuel IH]; intros n s Harr Hcur; [intros [] |].
  rewrite (dispatch_run _ _ fuel _ s 0%nat); cycle 1.
  { exact Hcur. }
  { lia. }
  { cbn [Compose.c_middlewares]. rewrite Harr, Nat2Z.id.
    apply lookup_replicate_2. lia. }
  unfold Scenarios.self_registering at 2. cbn [exec].
  unfold MiddlewareEngine.use. cbn [is_function middlewares world record set_currentIndex].
  rewrite Harr, <- replicate_S_end.
  replace (Z.of_nat n + 1)%Z with (Z.of_nat (S n)) by lia.
  match goal with
  | |- ~ settled (match ?d with _ => _ end) =>
      assert (Hd : ~ settled d); [| destruct d; cbn in *; tauto]
  end.
  apply IH; [| cbn; lia].
  cbn [set_world world]. unfold deref, store in *. cbn [heap].
  rewrite list_lookup_insert_eq; [reflexivity |].
  apply lookup_lt_is_Some.
  destruct (heap (world s) !! _) as [xs |]; [eexists; reflexivity |].
  cbn in Harr. discriminate.
Qed.

Lemma self_registration_never_settles (fuel : nat) :
  ~ settled (MiddlewareEngine.dispatch Scenarios.self_registering fuel
               (mkEngine 0) None None Scenarios.one_world).
Proof.
  unfold MiddlewareEngine.dispatch. cbn [middlewares Compose.composeMiddlewares].
  change (forallb is_function (deref Scenarios.one_world 0)) with true. cbn iota.
  unfold Compose.composed.
  apply (self_registration_dispatch fuel 0%nat); [reflexivity | cbn; lia].
Qed.

(** Over a copy of the registry the same middleware is called once. *)
Example self_registration_with_extras :
  MiddlewareEngine.dispatch Scenarios.self_registering 2 (mkEngine 0) None
    (Some 1%nat) Scenarios.late_world =
  Ok (mkExec (mkWorld [] [[VFun 0; VFun 0]; []; [VFun 0]]) 1%Z
             [EvInvoke 0; EvRun 0 0; EvInvoke 1]).
Proof. reflexivity. Qed.

(** ** The remaining tests, replayed *)

(** 'an empty middleware array should run the finalHandler directly' *)
Example empty_chain_runs_final :
  Compose.composed Scenarios.three_code
    (Compose.mkComposed 0 (Some (final_of (Scenarios.push "final")))) 1
    (Scenarios.world_of [[]]) =
  Ok (mkExec (mkWorld ["final"%string] [[]]) 0%Z [EvInvoke 0; EvFinal 0]).
Proof. reflexivity. Qed.

(** 'an empty middleware array without finalHandler should complete' *)
Example empty_chain_resolves :
  Compose.composed Scenarios.three_code (Compose.mkComposed 0 None) 1
    (Scenarios.world_of [[]]) =
  Ok (mkExec (mkWorld [] [[]]) 0%Z [EvInvoke 0]).
Proof. reflexivity. Qed.

(** 'middlewares can modify the context': [ctx.value] ends as 123. *)
Example context_is_threaded :
  Compose.composed
    (fun f => match f with
              | O => onion (fun _ => 10%Z) (fun v => (v + 1)%Z)
              | _ => onion (fun v => (v * 2)%Z) (fun v => (v + 2)%Z)
              end)
    (Compose.mkComposed 0 (Some (final_of (fun v => (v + 100)%Z)))) 3
    (mkWorld 0%Z [[VFun 0; VFun 1]]) =
  Ok (mkExec (mkWorld 123%Z [[VFun 0; VFun 1]]) 2%Z
             [EvInvoke 0; EvRun 0 0; EvInvoke 1; EvRun 1 1; EvInvoke 2; EvFinal 2]).
Proof. reflexivity. Qed.

(** 'should be creatable without parameters', 'should add middlewares in
    registration order', 'should return a copy of the middleware list':
    two calls of [getMiddlewares] return two arrays with the same
    elements. *)
Example engine_registration_order :
  let '(en, w0) := MiddlewareEngine.new None (Scenarios.world_of []) in
  deref w0 (middlewares en) = [] /\
  match MiddlewareEngine.use en (VFun 0) w0 with
  | Ok w1 =>
      match MiddlewareEngine.use en (VFun 1) w1 with
      | Ok w2 =>
          let '(l1, w3) := MiddlewareEngine.getMiddlewares en w2 in
          let '(l2, w4) := MiddlewareEngine.getMiddlewares en w3 in
          l1 <> l2 /\
          deref w4 l1 = [VFun 0; VFun 1] /\
          deref w4 l2 = [VFun 0; VFun 1] /\
          deref w4 (middlewares en) = [VFun 0; VFun 1]
      | _ => False
      end
  | _ => False
  end.
Proof. cbn. repeat split; congruence. Qed.

(** 'should be initializable with options': the registry is a copy of the
    array given to the constructor. *)
Example engine_constructor_copies :
  let '(en, w0) :=
    MiddlewareEngine.createMiddlewareEngine (Some 0%nat)
      (Scenarios.world_of [[VFun 0; VFun 1]]) in
  middlewares en <> 0%nat /\ deref w0 (middlewares en) = [VFun 0; VFun 1].
Proof. cbn. split; congruence. Qed.

(** * Further properties of the engine *)

(** ** Every run, whatever the handlers *)

Section EveryRun.
Context {C : Type} (code : fid -> Middleware C).
Implicit Types (c : Compose.Composed (C:=C)) (s : Exec C) (w : World C).

Lemma holds_state_of {T} (P : T -> Prop) (o : Outcome T) :
  holds P o -> P (state_of o).
Proof. destruct o; cbn; auto. Qed.

(** The engine's [dispatch] ends in a well-formed state too. *)
Lemma engine_dispatch_wf (fuel : nat) (en : Engine)
    (fin : option (FinalHandler C)) (extra : option loc) w :
  holds wf (MiddlewareEngine.dispatch code fuel en fin extra w).
Proof.
  unfold MiddlewareEngine.dispatch.
  destruct (match extra with
            | Some ex => alloc (deref w (middlewares en) ++ deref w ex) w
            | None => (middlewares en, w)
            end) as [l w1].
  destruct (Compose.composeMiddlewares w1 (VArr l) fin) as [e | c].
  - cbn. apply wf_start.
  - apply composed_wf.
Qed.

(** X1: in every run of a composed chain and of the engine's [dispatch],
    of any length and whatever the handlers do (catch, call [next]
    several times, rewrite the array), the middlewares are called at
    strictly increasing positions, so none is called twice, and the final
    handler is called at most once. *)
Theorem every_position_called_at_most_once c (fuel : nat) w (en : Engine)
    (fin : option (FinalHandler C)) (extra : option loc) :
  let tr := trace (state_of (Compose.composed code c fuel w)) in
  let tr' := trace (state_of (MiddlewareEngine.dispatch code fuel en fin extra w)) in
  (StronglySorted Z.lt (started tr) /\ NoDup (started tr) /\
   (final_calls tr <= 1)%nat) /\
  (StronglySorted Z.lt (started tr') /\ NoDup (started tr') /\
   (final_calls tr' <= 1)%nat).
Proof.
  intros tr tr'.
  pose proof (holds_state_of _ _ (composed_wf code c fuel w)) as Hwf.
  pose proof (holds_state_of _ _ (engine_dispatch_wf fuel en fin extra w)) as Hwf'.
  split; (split; [| split]).
  - exact (wf_started_sorted _ Hwf).
  - apply sorted_NoDup. exact (wf_started_sorted _ Hwf).
  - apply wf_final_calls. exact Hwf.
  - exact (wf_started_sorted _ Hwf').
  - apply sorted_NoDup. exact (wf_started_sorted _ Hwf').
  - apply wf_final_calls. exact Hwf'.
Qed.

Lemma final_calls_0 (tr : list event) :
  (forall j, EvFinal j ∉ tr) -> final_calls tr = 0%nat.
Proof.
  intros Hno. destruct (final_calls tr) as [| n] eqn:Hn; [reflexivity |].
  destruct (final_calls_pos tr ltac:(lia)) as (t1 & j & t2 & -> & _).
  exfalso. apply (Hno j). apply elem_of_app. right. apply elem_of_cons. left.
  reflexivity.
Qed.

(** X2: in every run, whatever the handlers do: if the middleware at
    position [i] was called and [dispatch] was never entered at position
    [i + 1] (the middleware did not call its continuation), then nothing
    was called at a position after [i] and the final handler was not
    called. *)
Theorem unused_continuation_ends_chain c (fuel : nat) w (i : Z) (f : fid) :
  let tr := trace (state_of (Compose.composed code c fuel w)) in
  EvRun i f ∈ tr ->
  EvInvoke (i + 1) ∉ tr ->
  (forall j, j ∈ started tr -> (j <= i)%Z) /\ final_calls tr = 0%nat.
Proof.
  intros tr Hrun Hnot.
  pose proof (holds_state_of _ _ (composed_wf code c fuel w)) as Hwf.
  fold tr in Hwf.
  assert (Hi : i ∈ started tr) by (apply elem_of_started; left; eauto).
  pose proof (wf_invoked_nonneg _ Hwf _ (wf_started_invoked _ Hwf _ Hi)) as Hnn.
  assert (Hle : forall j, j ∈ started tr -> (j <= i)%Z).
  { apply (wf_started_chain _ i Hwf Hnn Hnot). }
  split; [exact Hle |].
  apply final_calls_0. intros j Hfin.
  assert (Hj : j ∈ started tr) by (apply elem_of_started; right; exact Hfin).
  pose proof (Hle j Hj) as Hji.
  pose proof (wf_final_is_last _ j Hwf Hfin i Hi) as Hij.
  assert (j = i) by lia. subst j.
  exact (wf_run_final_disjoint _ i f Hwf Hrun Hfin).
Qed.

(** X3: the chain of a [dispatch] with extra middlewares is the registry
    followed by the extra middlewares as they were when the dispatch
    began: in every run, every middleware that is called is the element
    of that chain at the position of the call, whatever is registered
    meanwhile.  (The chain's array is local to [dispatch]: no handler can
    write it.) *)
Theorem extras_chain_is_snapshot (en : Engine) (extra : loc)
    (fin : option (FinalHandler C)) (fuel : nat) w (i : Z) (f : fid) :
  (forall g, frames (length (heap w)) (code g)) ->
  (forall fh, fin = Some fh -> frames (length (heap w)) fh) ->
  EvRun i f ∈ trace (state_of (MiddlewareEngine.dispatch code fuel en fin
                                 (Some extra) w)) ->
  (0 <= i)%Z /\
  (deref w (middlewares en) ++ deref w extra) !! Z.to_nat i = Some (VFun f).
Proof.
  intros Hcode Hfin Hrun.
  pose proof (holds_state_of _ _
                (snapshot_with_extras code en extra fin fuel w Hcode Hfin)) as H.
  exact (H i f Hrun).
Qed.
End EveryRun.

(** The chain whose second middleware never calls [next]: nothing is
    called after position 1, and the final handler is not called. *)
Lemma unused_continuation_witness :
  (forall j, j ∈ [0; 1]%Z -> (j <= 1)%Z) /\ 0%nat = 0%nat.
Proof.
  apply (unused_continuation_ends_chain Scenarios.halting_code
           (Compose.mkComposed 0 (Some (Scenarios.thrower "unreached"))) 2
           Scenarios.three_world 1%Z 1%nat).
  - vm_compute. apply list_elem_of_In. cbn. tauto.
  - vm_compute. intros H. apply list_elem_of_In in H. cbn in H.
    repeat (destruct H as [H | H]; [discriminate H |]). exact H.
Defined.

(** The registration during a dispatch with extra middlewares: the
    middleware called at position 0 is the one registered when the
    dispatch began. *)
Lemma extras_chain_is_snapshot_witness :
  (0 <= 0)%Z /\ [VFun 0] !! 0%nat = Some (VFun 0).
Proof.
  apply (extras_chain_is_snapshot Scenarios.late_code (mkEngine 0) 1%nat None 3
           Scenarios.late_world 0%Z 0%nat).
  - intros [| [| f]]; cbn [Scenarios.late_code Scenarios.table default lookup
                           list_lookup Scenarios.registrar].
    + apply frames_Modify. cbn [frames]. split.
      * intros w. apply use_frames. cbn. lia.
      * apply frames_Modify. exact I.
    + apply frames_Modify. cbn [frames]. apply frames_Modify. exact I.
    + exact I.
  - discriminate.
  - vm_compute. apply list_elem_of_In. cbn. tauto.
Defined.

(** ** A chain that is not rewritten *)

Section Frozen.
Context {C : Type} (code : fid -> Middleware C).
Implicit Types (c : Compose.Composed (C:=C)) (s : Exec C) (w : World C).

Lemma settles_in_inv {T} (P : T -> Prop) (o : Outcome T) :
  settles_in P o -> settled o /\ P (state_of o).
Proof. destruct o; cbn; auto. intros []. Qed.

Lemma exec_settles {N} (l : loc) (P : Exec C -> Prop)
    (next : N -> Exec C -> Outcome (Exec C)) (p : Prog C N) :
  frames l p ->
  acts_settle p ->
  (forall s w', P s -> heap w' !! l = heap (world s) !! l -> P (set_world w' s)) ->
  (forall n s, P s -> settles_in P (next n s)) ->
  forall s, P s -> settles_in P (exec next p s).
Proof.
  intros Hfr Hact Hworld Hnext.
  induction p as [| e | op k IHk | k IHk | n k IHk | body IHb handler IHh k IHk];
    intros s HP; cbn [exec frames acts_settle] in *.
  - exact HP.
  - exact HP.
  - destruct Hfr as [Hop Hk]. destruct Hact as [Hs Hak].
    specialize (Hop (world s)). specialize (Hs (world s)).
    destruct (op (world s)) as [w1 | e w1 | w1]; cbn in *; auto.
  - apply IHk; [apply Hfr | apply Hact | exact HP].
  - specialize (Hnext n s HP).
    destruct (next n s) as [s1 | e s1 | s1]; cbn in *; auto.
  - destruct Hfr as (Hb & Hh & Hk). destruct Hact as (Ab & Ah & Ak).
    specialize (IHb Hb Ab s HP).
    destruct (exec next body s) as [s1 | e s1 | s1]; cbn in *; auto.
    specialize (IHh e (Hh e) (Ah e) s1 IHb).
    destruct (exec next (handler e) s1) as [s2 | e2 s2 | s2]; cbn in *; auto.
Qed.

Lemma js_index_function (arr : list value) (index : Z) (f : fid) :
  js_index arr index = VFun f ->
  (0 <= index)%Z /\ arr !! Z.to_nat index = Some (VFun f).
Proof.
  unfold js_index. destruct (index <? 0)%Z eqn:Hneg; [discriminate |].
  apply Z.ltb_ge in Hneg. intros H. split; [exact Hneg |].
  destruct (arr !! Z.to_nat index) as [v |]; cbn in H; [| discriminate].
  subst v. reflexivity.
Qed.

(** With the array of the chain left as it is, [dispatch(index)] settles
    within as many nested calls as there are positions left. *)
Lemma dispatch_settles (l : loc) (arr : list value) c :
  Compose.c_middlewares c = l ->
  (forall f, frames l (code f) /\ acts_settle (code f)) ->
  (forall fh, Compose.c_finalHandler c = Some fh ->
     frames l fh /\ acts_settle fh) ->
  forall (fuel : nat) index s,
    heap (world s) !! l = Some arr ->
    (0 < fuel)%nat ->
    (Z.of_nat (length arr) - index < Z.of_nat fuel)%Z ->
    settles_in (fun s' => heap (world s') !! l = Some arr)
               (Compose.dispatch code c fuel index s).
Proof.
  intros Hc Hcode Hfin.
  assert (Hstable : forall s w',
            heap (world s) !! l = Some arr ->
            heap w' !! l = heap (world s) !! l ->
            heap (world (set_world w' s)) !! l = Some arr).
  { intros s w' Hh Hsame. cbn. congruence. }
  induction fuel as [| fuel IH]; intros index s Hheap Hpos Hfuel; [lia |].
  rewrite dispatch_unfold. cbn zeta.
  destruct (index <=? _)%Z; [cbn; exact Hheap |].
  cbn [set_currentIndex record world]. rewrite Hc.
  assert (Harr : deref (world s) l = arr).
  { unfold deref. rewrite Hheap. reflexivity. }
  rewrite Harr.
  destruct (index =? Z.of_nat (length arr))%Z eqn:Hend.
  { destruct (Compose.c_finalHandler c) as [fh |] eqn:Hfh; [| cbn; exact Hheap].
    destruct (Hfin fh eq_refl) as [Hf Ha].
    apply (exec_settles l); [exact Hf | exact Ha | exact Hstable | intros [] |].
    exact Hheap. }
  apply Z.eqb_neq in Hend.
  destruct (negb _); [cbn; exact Hheap |].
  destruct (js_index arr index) as [| | b | n | str | f | l0] eqn:Hidx;
    try (cbn; exact Hheap).
  apply js_index_function in Hidx as [Hnn Hlk].
  apply lookup_lt_Some in Hlk.
  destruct (Hcode f) as [Hf Ha].
  apply (exec_settles l); [exact Hf | exact Ha | exact Hstable | | exact Hheap].
  intros _ s1 Hh1. apply IH; [exact Hh1 | lia | lia].
Qed.

(** X4: if no handler writes the array of the chain and every action of
    the handlers returns or throws, the call of [composed] settles: the
    nesting of [dispatch] is at most one more than the length of the
    array.  The array is then as it was. *)
Theorem frozen_chain_settles c (arr : list value) (fuel : nat) w :
  heap w !! Compose.c_middlewares c = Some arr ->
  (forall f, frames (Compose.c_middlewares c) (code f) /\ acts_settle (code f)) ->
  (forall fh, Compose.c_finalHandler c = Some fh ->
     frames (Compose.c_middlewares c) fh /\ acts_settle fh) ->
  (length arr < fuel)%nat ->
  settled (Compose.composed code c fuel w) /\
  heap (world (state_of (Compose.composed code c fuel w)))
    !! Compose.c_middlewares c = Some arr.
Proof.
  intros Hheap Hcode Hfin Hfuel.
  apply settles_in_inv
    with (P := fun s' => heap (world s') !! Compose.c_middlewares c = Some arr).
  unfold Compose.composed.
  apply (dispatch_settles (Compose.c_middlewares c) arr c eq_refl Hcode Hfin);
    [exact Hheap | lia | lia].
Qed.

(** A body whose actions leave the array at [l] alone once it exists,
    run in states that have it. *)
Lemma exec_leaves_settles {N} (l : loc) (P : Exec C -> Prop)
    (next : N -> Exec C -> Outcome (Exec C)) (p : Prog C N) :
  leaves l p ->
  acts_settle p ->
  (forall s, P s -> (l < length (heap (world s)))%nat) ->
  (forall s w', P s -> heap w' !! l = heap (world s) !! l -> P (set_world w' s)) ->
  (forall n s, P s -> settles_in P (next n s)) ->
  forall s, P s -> settles_in P (exec next p s).
Proof.
  intros Hlv Hact Hlen Hworld Hnext.
  induction p as [| e | op k IHk | k IHk | n k IHk | body IHb handler IHh k IHk];
    intros s HP; cbn [exec leaves acts_settle] in *.
  - exact HP.
  - exact HP.
  - destruct Hlv as [Hop Hk]. destruct Hact as [Hs Hak].
    specialize (Hop (world s) (Hlen s HP)). specialize (Hs (world s)).
    destruct (op (world s)) as [w1 | e w1 | w1]; cbn in *; auto.
  - apply IHk; [apply Hlv | apply Hact | exact HP].
  - specialize (Hnext n s HP).
    destruct (next n s) as [s1 | e s1 | s1]; cbn in *; auto.
  - destruct Hlv as (Hb & Hh & Hk). destruct Hact as (Ab & Ah & Ak).
    specialize (IHb Hb Ab s HP).
    destruct (exec next body s) as [s1 | e s1 | s1]; cbn in *; auto.
    specialize (IHh e (Hh e) (Ah e) s1 IHb).
    destruct (exec next (handler e) s1) as [s2 | e2 s2 | s2]; cbn in *; auto.
Qed.

Lemma dispatch_leaves_settles (l : loc) (arr : list value) c :
  Compose.c_middlewares c = l ->
  (forall f, leaves l (code f) /\ acts_settle (code f)) ->
  (forall fh, Compose.c_finalHandler c = Some fh ->
     leaves l fh /\ acts_settle fh) ->
  forall (fuel : nat) index s,
    heap (world s) !! l = Some arr ->
    (0 < fuel)%nat ->
    (Z.of_nat (length arr) - index < Z.of_nat fuel)%Z ->
    settles_in (fun s' => heap (world s') !! l = Some arr)
               (Compose.dispatch code c fuel index s).
Proof.
  intros Hc Hcode Hfin.
  assert (Hstable : forall s w',
            heap (world s) !! l = Some arr ->
            heap w' !! l = heap (world s) !! l ->
            heap (world (set_world w' s)) !! l = Some arr).
  { intros s w' Hh Hsame. cbn. congruence. }
  assert (Hhas : forall s, heap (world s) !! l = Some arr ->
                           (l < length (heap (world s)))%nat).
  { intros s Hh. exact (lookup_lt_Some _ _ _ Hh). }
  induction fuel as [| fuel IH]; intros index s Hheap Hpos Hfuel; [lia |].
  rewrite dispatch_unfold. cbn zeta.
  destruct (index <=? _)%Z; [cbn; exact Hheap |].
  cbn [set_currentIndex record world]. rewrite Hc.
  assert (Harr : deref (world s) l = arr).
  { unfold deref. rewrite Hheap. reflexivity. }
  rewrite Harr.
  destruct (index =? Z.of_nat (length arr))%Z eqn:Hend.
  { destruct (Compose.c_finalHandler c) as [fh |] eqn:Hfh; [| cbn; exact Hheap].
    destruct (Hfin fh eq_refl) as [Hf Ha].
    apply (exec_leaves_settles l);
      [exact Hf | exact Ha | exact Hhas | exact Hstable | intros [] |].
    exact Hheap. }
  apply Z.eqb_neq in Hend.
  destruct (negb _); [cbn; exact Hheap |].
  destruct (js_index arr index) as [| | b | n | str | f | l0] eqn:Hidx;
    try (cbn; exact Hheap).
  apply js_index_function in Hidx as [Hnn Hlk].
  apply lookup_lt_Some in Hlk.
  destruct (Hcode f) as [Hf Ha].
  apply (exec_leaves_settles l);
    [exact Hf | exact Ha | exact Hhas | exact Hstable | | exact Hheap].
  intros u s1 Hh1. cbn beta. apply IH; [exact Hh1 | lia | lia].
Qed.

(** X5: a [dispatch] with extra middlewares settles whatever the handlers
    register or allocate meanwhile, as long as their actions return or
    throw and leave alone the array the dispatch runs over: that chain is
    an array of its own, of the length the registry and the extra
    middlewares had together when the dispatch began. *)
Theorem dispatch_with_extras_settles (en : Engine) (extra : loc)
    (fin : option (FinalHandler C)) (fuel : nat) w :
  (forall f, leaves (length (heap w)) (code f) /\ acts_settle (code f)) ->
  (forall fh, fin = Some fh -> leaves (length (heap w)) fh /\ acts_settle fh) ->
  (length (deref w (middlewares en)) + length (deref w extra) < fuel)%nat ->
  settled (MiddlewareEngine.dispatch code fuel en fin (Some extra) w).
Proof.
  intros Hcode Hfin Hfuel. unfold MiddlewareEngine.dispatch, alloc.
  set (arr := deref w (middlewares en) ++ deref w extra).
  set (w1 := mkWorld (ctx w) (heap w ++ [arr])).
  destruct (Compose.composeMiddlewares w1 (VArr (length (heap w))) fin)
    as [e | c] eqn:Hc; [exact I |].
  unfold Compose.composeMiddlewares in Hc.
  destruct (forallb is_function (deref w1 (length (heap w)))); inversion Hc; subst c.
  unfold Compose.composed.
  eapply proj1, settles_in_inv.
  apply (dispatch_leaves_settles (length (heap w)) arr); auto.
  - cbn. rewrite lookup_app_r by lia. rewrite Nat.sub_diag. reflexivity.
  - lia.
  - subst arr. rewrite length_app. lia.
Qed.

(** Whatever the handlers do to other arrays, an array none of them
    writes is the same after [dispatch]. *)
Lemma dispatch_keeps_array (l : loc) (arr : list value) c (fuel : nat) :
  (forall f, frames l (code f)) ->
  (forall fh, Compose.c_finalHandler c = Some fh -> frames l fh) ->
  forall index s,
    heap (world s) !! l = Some arr ->
    holds (fun s' => heap (world s') !! l = Some arr)
          (Compose.dispatch code c fuel index s).
Proof.
  intros Hcode Hfin.
  assert (Hstable : forall s w',
            heap (world s) !! l = Some arr ->
            heap w' !! l = heap (world s) !! l ->
            heap (world (set_world w' s)) !! l = Some arr).
  { intros s w' Hh Hsame. cbn. congruence. }
  induction fuel as [| fuel IH]; intros index s Hheap; [exact Hheap |].
  rewrite dispatch_unfold. cbn zeta.
  destruct (index <=? _)%Z; [cbn; exact Hheap |].
  cbn [set_currentIndex record world].
  destruct (index =? _)%Z.
  { destruct (Compose.c_finalHandler c) as [fh |] eqn:Hfh; [| cbn; exact Hheap].
    apply (exec_frames l); [apply Hfin; reflexivity | exact Hstable | intros [] |].
    exact Hheap. }
  destruct (negb _); [cbn; exact Hheap |].
  destruct (js_index _ index) as [| | b | n | str | f | l0];
    try (cbn; exact Hheap).
  apply (exec_frames l); [apply Hcode | exact Hstable | | exact Hheap].
  intros _ s1 Hh1. apply IH. exact Hh1.
Qed.

(** X6: the engine's [dispatch] writes no array itself, neither the
    registry nor the extra middlewares: an array that no handler writes
    is the same when the dispatch is over, or at any point of it. *)
Theorem dispatch_writes_no_array (en : Engine) (fin : option (FinalHandler C))
    (extra : option loc) (fuel : nat) w (l : loc) (arr : list value) :
  heap w !! l = Some arr ->
  (forall f, frames l (code f)) ->
  (forall fh, fin = Some fh -> frames l fh) ->
  heap (world (state_of (MiddlewareEngine.dispatch code fuel en fin extra w)))
    !! l = Some arr.
Proof.
  intros Hheap Hcode Hfin.
  apply (holds_state_of (fun s' => heap (world s') !! l = Some arr)).
  unfold MiddlewareEngine.dispatch.
  assert (Hw1 : heap (snd (match extra with
                           | Some ex => alloc (deref w (middlewares en) ++ deref w ex) w
                           | None => (middlewares en, w)
                           end)) !! l = Some arr).
  { destruct extra as [ex |]; cbn; [| exact Hheap].
    rewrite lookup_app_l by (apply lookup_lt_Some in Hheap; exact Hheap).
    exact Hheap. }
  destruct (match extra with
            | Some ex => alloc (deref w (middlewares en) ++ deref w ex) w
            | None => (middlewares en, w)
            end) as [l1 w1].
  cbn [snd] in Hw1.
  destruct (Compose.composeMiddlewares w1 (VArr l1) fin) as [e | c] eqn:Hc.
  - cbn. exact Hw1.
  - unfold Compose.composeMiddlewares in Hc.
    destruct (forallb is_function (deref w1 l1)); inversion Hc; subst c.
    unfold Compose.composed.
    apply dispatch_keeps_array; auto.
Qed.

(** In a well-formed state, every position before one that was called
    was called too. *)
Lemma wf_calls_contiguous s :
  wf s ->
  forall (n : nat) (j : Z),
    j = Z.of_nat n -> EvInvoke j ∈ trace s ->
    forall i, (0 <= i < j)%Z -> exists f, EvRun i f ∈ trace s.
Proof.
  intros Hwf. induction n as [| n IH]; intros j Hj Hin i Hi; [lia |].
  destruct (wf_invoked_pred _ Hwf j Hin) as [H0 | [f Hf]]; [lia |].
  destruct (Z.eq_dec i (j - 1)%Z) as [-> | Hne]; [exists f; exact Hf |].
  apply (IH (j - 1)%Z); [lia | | lia].
  apply (wf_started_invoked _ Hwf). apply elem_of_started. left. exists f. exact Hf.
Qed.

(** X7: in every run, whatever the handlers do, no position is skipped: a
    middleware or the final handler is called at position [j] only after
    a middleware was called at each of the positions before [j]. *)
Theorem no_position_skipped c (fuel : nat) w (en : Engine)
    (fin : option (FinalHandler C)) (extra : option loc) (j i : Z) :
  (0 <= i < j)%Z ->
  (j ∈ started (trace (state_of (Compose.composed code c fuel w))) ->
   exists f, EvRun i f ∈ trace (state_of (Compose.composed code c fuel w))) /\
  (j ∈ started (trace (state_of
                         (MiddlewareEngine.dispatch code fuel en fin extra w))) ->
   exists f, EvRun i f ∈ trace (state_of
                                  (MiddlewareEngine.dispatch code fuel en fin extra w))).
Proof.
  intros Hi.
  pose proof (holds_state_of _ _ (composed_wf code c fuel w)) as Hwf.
  pose proof (holds_state_of _ _ (engine_dispatch_wf code fuel en fin extra w)) as Hwf'.
  split; intros Hj.
  - apply (wf_calls_contiguous _ Hwf (Z.to_nat j) j); [lia | | exact Hi].
    apply (wf_started_invoked _ Hwf). exact Hj.
  - apply (wf_calls_contiguous _ Hwf' (Z.to_nat j) j); [lia | | exact Hi].
    apply (wf_started_invoked _ Hwf'). exact Hj.
Qed.

(** With the array of the chain left as it is, the final handler is
    called at the length of the array only. *)
Lemma dispatch_final_at_end (l : loc) (arr : list value) c (fuel : nat) :
  Compose.c_middlewares c = l ->
  (forall f, frames l (code f)) ->
  (forall fh, Compose.c_finalHandler c = Some fh -> frames l fh) ->
  forall index s,
    heap (world s) !! l = Some arr ->
    (forall j, EvFinal j ∈ trace s -> j = Z.of_nat (length arr)) ->
    holds (fun s' => heap (world s') !! l = Some arr /\
                     forall j, EvFinal j ∈ trace s' -> j = Z.of_nat (length arr))
          (Compose.dispatch code c fuel index s).
Proof.
  intros Hc Hcode Hfin.
  set (Q := fun s : Exec C =>
              forall j, EvFinal j ∈ trace s -> j = Z.of_nat (length arr)).
  assert (Hrec : forall ev s,
            (forall j, ev = EvFinal j -> j = Z.of_nat (length arr)) ->
            Q s -> Q (record ev s)).
  { intros ev s Hev Hq j Hin. cbn in Hin.
    apply elem_of_app in Hin as [Hin | Hin]; [exact (Hq _ Hin) |].
    apply list_elem_of_singleton in Hin. apply Hev. symmetry. exact Hin. }
  assert (Hstable : forall s w',
            heap (world s) !! l = Some arr /\ Q s ->
            heap w' !! l = heap (world s) !! l ->
            heap (world (set_world w' s)) !! l = Some arr /\ Q (set_world w' s)).
  { intros s w' [Hh Hq] Hsame. cbn. split; [congruence | exact Hq]. }
  induction fuel as [| fuel IH]; intros index s Hheap Hq;
    [split; assumption |].
  rewrite dispatch_unfold. cbn zeta.
  pose proof (Hrec (EvInvoke index) s ltac:(discriminate) Hq) as Hq1.
  destruct (index <=? _)%Z; [cbn; auto |].
  cbn [set_currentIndex record world]. rewrite Hc.
  assert (Harr : deref (world s) l = arr).
  { unfold deref. rewrite Hheap. reflexivity. }
  rewrite Harr.
  destruct (index =? Z.of_nat (length arr))%Z eqn:Hend.
  { apply Z.eqb_eq in Hend.
    destruct (Compose.c_finalHandler c) as [fh |] eqn:Hfh; [| cbn; auto].
    apply (exec_frames l); [apply Hfin; reflexivity | exact Hstable | intros [] |].
    split; [exact Hheap |]. apply Hrec; [| exact Hq1].
    intros j Hj. inversion Hj. subst j. exact Hend. }
  destruct (negb _); [cbn; auto |].
  destruct (js_index arr index) as [| | b | n | str | f | l0];
    try (cbn; auto; fail).
  apply (exec_frames l); [apply Hcode | exact Hstable | |].
  - intros _ s1 [Hh1 Hq1']. apply IH; assumption.
  - split; [exact Hheap |]. apply Hrec; [discriminate | exact Hq1].
Qed.

(** X8: if no handler writes the array of the chain, the final handler is
    called, if at all, at the position that is the length of the array,
    and then every element of the array is a function that was called at
    its position: the final handler runs after all of the chain. *)
Theorem final_handler_after_whole_chain c (arr : list value) (fuel : nat) w
    (j : Z) :
  heap w !! Compose.c_middlewares c = Some arr ->
  (forall f, frames (Compose.c_middlewares c) (code f)) ->
  (forall fh, Compose.c_finalHandler c = Some fh ->
     frames (Compose.c_middlewares c) fh) ->
  EvFinal j ∈ trace (state_of (Compose.composed code c fuel w)) ->
  j = Z.of_nat (length arr) /\
  forall i, (i < length arr)%nat ->
    exists f, arr !! i = Some (VFun f) /\
              EvRun (Z.of_nat i) f ∈ trace (state_of (Compose.composed code c fuel w)).
Proof.
  intros Hheap Hcode Hfin Hj.
  pose proof (holds_state_of _ _ (composed_wf code c fuel w)) as Hwf.
  assert (Hend : j = Z.of_nat (length arr)).
  { pose proof (holds_state_of _ _
                  (dispatch_final_at_end (Compose.c_middlewares c) arr c fuel
                     eq_refl Hcode Hfin 0%Z (Compose.start w) Hheap
                     ltac:(intros j0 H0; inversion H0))) as [_ Hq].
    exact (Hq j Hj). }
  split; [exact Hend |].
  intros i Hi.
  destruct (wf_calls_contiguous _ Hwf (Z.to_nat j) j ltac:(lia)
              ltac:(apply (wf_started_invoked _ Hwf); apply elem_of_started;
                    right; exact Hj)
              (Z.of_nat i) ltac:(lia)) as [f Hf].
  exists f. split; [| exact Hf].
  pose proof (holds_state_of _ _
                (dispatch_snapshot code (Compose.c_middlewares c) arr c fuel
                   eq_refl Hcode Hfin 0%Z (Compose.start w) Hheap
                   ltac:(intros i0 f0 H0; inversion H0))) as [_ Hr].
  destruct (Hr _ _ Hf) as [_ Hlk]. rewrite Nat2Z.id in Hlk. exact Hlk.
Qed.
End Frozen.

Lemma three_code_frozen (f : fid) :
  frames 0 (Scenarios.three_code f) /\ acts_settle (Scenarios.three_code f).
Proof.
  destruct f as [| [| [| f]]]; cbn; repeat split; intros; exact I.
Qed.

(** The chain of three logging middlewares settles with nesting 4. *)
Lemma frozen_chain_settles_witness :
  settled (Compose.composed Scenarios.three_code (Compose.mkComposed 0 None) 4
             Scenarios.three_world) /\
  heap (world (state_of (Compose.composed Scenarios.three_code
                           (Compose.mkComposed 0 None) 4 Scenarios.three_world)))
    !! 0%nat = Some [VFun 0; VFun 1; VFun 2].
Proof.
  apply (frozen_chain_settles Scenarios.three_code (Compose.mkComposed 0 None)
           [VFun 0; VFun 1; VFun 2] 4 Scenarios.three_world).
  - reflexivity.
  - exact three_code_frozen.
  - discriminate.
  - cbn. lia.
Defined.

(** The middleware that registers itself and takes a copy of the
    registry before it awaits its continuation: with extra middlewares
    the dispatch settles. *)
Lemma dispatch_with_extras_settles_witness :
  settled (MiddlewareEngine.dispatch Scenarios2.listing 2 (mkEngine 0)
             None (Some 1%nat) Scenarios.late_world).
Proof.
  apply (dispatch_with_extras_settles Scenarios2.listing (mkEngine 0)
           1%nat None 2 Scenarios.late_world).
  - intros f. unfold Scenarios2.listing. cbn [leaves acts_settle].
    split; [split; [| split] | split; [| split]]; try exact I.
    + intros w _. apply use_frames. cbn. lia.
    + intros w Hw. unfold MiddlewareEngine.getMiddlewares, alloc.
      cbn [snd holds heap]. apply lookup_app_l. exact Hw.
    + intros w. unfold MiddlewareEngine.use. cbn. exact I.
    + intros w. exact I.
  - discriminate.
  - cbn. lia.
Defined.

(** The registration during a dispatch writes the registry, at 0, and
    leaves the array at 1 as it was. *)
Lemma dispatch_writes_no_array_witness :
  heap (world (state_of (MiddlewareEngine.dispatch Scenarios.late_code 3
                           (mkEngine 0) None None Scenarios.late_world)))
    !! 1%nat = Some [].
Proof.
  apply (dispatch_writes_no_array Scenarios.late_code (mkEngine 0) None None 3
           Scenarios.late_world 1%nat []).
  - reflexivity.
  - intros [| [| f]]; cbn [Scenarios.late_code Scenarios.table default lookup
                           list_lookup Scenarios.registrar].
    + apply frames_Modify. cbn [frames]. split.
      * intros w. apply use_frames. cbn. lia.
      * apply frames_Modify. exact I.
    + apply frames_Modify. cbn [frames]. apply frames_Modify. exact I.
    + exact I.
  - discriminate.
Defined.

(** Position 2 of the chain of three logging middlewares is reached
    through position 0. *)
Lemma no_position_skipped_witness :
  (2%Z ∈ started (trace (state_of (Compose.composed Scenarios.three_code
                                     (Compose.mkComposed 0 None) 4
                                     Scenarios.three_world))) ->
   exists f, EvRun 0 f ∈ trace (state_of (Compose.composed Scenarios.three_code
                                            (Compose.mkComposed 0 None) 4
                                            Scenarios.three_world))) /\
  (2%Z ∈ started (trace (state_of (MiddlewareEngine.dispatch Scenarios.three_code 4
                                     (mkEngine 0) None None
                                     Scenarios.three_world))) ->
   exists f, EvRun 0 f ∈ trace (state_of (MiddlewareEngine.dispatch
                                            Scenarios.three_code 4 (mkEngine 0)
                                            None None Scenarios.three_world))).
Proof.
  apply (no_position_skipped Scenarios.three_code (Compose.mkComposed 0 None) 4
           Scenarios.three_world (mkEngine 0) None None 2%Z 0%Z).
  lia.
Defined.

(** The chain of three logging middlewares with a final handler: the
    final handler is called at position 3, after the three of them. *)
Lemma final_handler_after_whole_chain_witness :
  3%Z = Z.of_nat (length [VFun 0; VFun 1; VFun 2]) /\
  forall i, (i < length [VFun 0; VFun 1; VFun 2])%nat ->
    exists f, [VFun 0; VFun 1; VFun 2] !! i = Some (VFun f) /\
              EvRun (Z.of_nat i) f ∈
                trace (state_of (Compose.composed Scenarios.three_code
                                   (Compose.mkComposed 0 (Some Scenarios.twice_final))
                                   4 Scenarios.three_world)).
Proof.
  apply (final_handler_after_whole_chain Scenarios.three_code
           (Compose.mkComposed 0 (Some Scenarios.twice_final))
           [VFun 0; VFun 1; VFun 2] 4 Scenarios.three_world 3%Z).
  - reflexivity.
  - intros f. apply three_code_frozen.
  - intros fh H. inversion H. apply frames_Modify. exact I.
  - vm_compute. apply list_elem_of_In. cbn. tauto.
Defined.

(** ** Positions that hold no function *)

Section Elements.
Context {C : Type} (code : fid -> Middleware C).
Implicit Types (c : Compose.Composed (C:=C)) (s : Exec C) (w : World C).

(** [await middleware(ctx, next)] on a value that is truthy and not a
    function. *)
Lemma dispatch_not_function c fuel index s :
  (currentIndex s < index)%Z ->
  index <> Z.of_nat (length (deref (world s) (Compose.c_middlewares c))) ->
  truthy (js_index (deref (world s) (Compose.c_middlewares c)) index) = true ->
  is_function (js_index (deref (world s) (Compose.c_middlewares c)) index) = false ->
  Compose.dispatch code c (S fuel) index s =
    Err (TypeError "middleware is not a function") (entered index s).
Proof.
  intros Hlt Hlen Htruthy Hfun. rewrite dispatch_unfold. cbn zeta.
  replace (index <=? currentIndex (record (EvInvoke index) s))%Z with false
    by (symmetry; apply Z.leb_gt; exact Hlt).
  cbn [world set_currentIndex record].
  replace (index =? Z.of_nat (length (deref (world s) (Compose.c_middlewares c))))%Z
    with false by (symmetry; apply Z.eqb_neq; exact Hlen).
  rewrite Htruthy. cbn [negb].
  destruct (js_index _ index); try reflexivity. discriminate Hfun.
Qed.

(** X9: an element of the array that is truthy and not a function (it
    can only have been put there after the chain was composed) makes the
    call reject with a [TypeError] when its position is reached: nothing
    is called at that position or after it, and the middlewares before
    it, which await their continuations, do not run their code after
    [next]. *)
Theorem non_function_element_rejects w (l : loc) ls (v : value)
    (rest : list value) (fin : option (FinalHandler C)) (fuel : nat) :
  deref w l = layer_values ls ++ v :: rest ->
  truthy v = true ->
  is_function v = false ->
  onions code ls ->
  exists msg,
    Compose.composed code (Compose.mkComposed l fin) (S (length ls) + fuel) w =
      Err (TypeError msg)
          (mkExec (mkWorld (run_pre ls (ctx w)) (heap w))
                  (Z.of_nat (length ls))
                  (onion_trace 0 ls ++ [EvInvoke (Z.of_nat (length ls))])).
Proof.
  intros Harr Htruthy Hfun Hon.
  exists "middleware is not a function"%string.
  replace (S (length ls) + fuel)%nat with (length ls + S fuel)%nat by lia.
  apply (awaiting_rejects code _ w (length ls) (enter_all 0 ls (Compose.start w))).
  { apply (awaiting_onions code w l fin ls (v :: rest) Harr Hon). }
  assert (Hv : js_index (deref (world (enter_all 0 ls (Compose.start w))) l)
                 (Z.of_nat (length ls)) = v).
  { rewrite enter_all_world. unfold deref in *.
    cbn [set_ctx heap Compose.start world]. rewrite Harr. unfold js_index.
    replace (Z.of_nat (length ls) <? 0)%Z with false
      by (symmetry; apply Z.ltb_ge; lia).
    rewrite Nat2Z.id, lookup_after_layers. reflexivity. }
  rewrite dispatch_not_function.
  - unfold entered, set_currentIndex, record. cbn [world trace currentIndex].
    rewrite enter_all_world, enter_all_trace. reflexivity.
  - apply (enter_all_currentIndex 0 ls (Compose.start w)). cbn. lia.
  - rewrite enter_all_world. cbn [Compose.c_middlewares].
    unfold deref in *. cbn [set_ctx heap Compose.start world].
    rewrite Harr, length_app, length_layer_values. cbn [length]. lia.
  - cbn [Compose.c_middlewares]. rewrite Hv. exact Htruthy.
  - cbn [Compose.c_middlewares]. rewrite Hv. exact Hfun.
Qed.

(** While the middlewares await their continuations for the first time,
    the final handler has not been called. *)
Lemma awaiting_no_final c w (i : nat) s :
  awaiting code c w i s -> forall j, EvFinal j ∉ trace s.
Proof.
  induction 1 as [| i s h k s1 Haw IH Hlk Hcf Hun]; intros j Hin.
  - cbn in Hin. inversion Hin.
  - destruct (until_next_engine_state _ _ _ _ _ Hun) as [_ Htr].
    rewrite Htr in Hin. unfold call_state, entered in Hin. cbn in Hin.
    apply elem_of_app in Hin as [Hin | Hin].
    + apply elem_of_app in Hin as [Hin | Hin]; [exact (IH _ Hin) |].
      apply list_elem_of_singleton in Hin. discriminate Hin.
    + apply list_elem_of_singleton in Hin. discriminate Hin.
Qed.

(** X10: the end of the chain is where [index] equals the length the
    array has at that moment.  When the middlewares before position [i]
    have called their continuations and the array is by then shorter than
    [i], [dispatch(i)] returns at once: the final handler is not called,
    and the call has not called it before either. *)
Theorem shortened_chain_skips_final c w (i : nat) s (fuel : nat) :
  awaiting code c w i s ->
  (length (deref (world s) (Compose.c_middlewares c)) < i)%nat ->
  Compose.dispatch code c (S fuel) (Z.of_nat i) s = Ok (entered (Z.of_nat i) s) /\
  final_calls (trace (entered (Z.of_nat i) s)) = 0%nat.
Proof.
  intros Haw Hshort. split.
  - apply dispatch_missing.
    + exact (awaiting_currentIndex code c w i s Haw).
    + lia.
    + unfold js_index.
      replace (Z.of_nat i <? 0)%Z with false by (symmetry; apply Z.ltb_ge; lia).
      rewrite Nat2Z.id, lookup_ge_None_2 by lia. reflexivity.
  - apply final_calls_0. intros j Hin. cbn in Hin.
    apply elem_of_app in Hin as [Hin | Hin].
    + exact (awaiting_no_final c w i s Haw j Hin).
    + apply list_elem_of_singleton in Hin. discriminate Hin.
Qed.
End Elements.

(** The chain whose array holds a string at position 1: the call rejects
    there, after the first middleware ran its code before [next]. *)
Lemma non_function_element_witness :
  exists msg,
    Compose.composed Scenarios.three_code
      (Compose.mkComposed 0 (Some Scenarios.twice_final)) 2
      Scenarios2.spoiled_world =
    Err (TypeError msg)
        (mkExec (mkWorld ["m1-before"%string]
                         [[VFun 0; VStr "not a function"; VFun 2]])
                1%Z [EvInvoke 0; EvRun 0 0; EvInvoke 1]).
Proof.
  apply (non_function_element_rejects Scenarios.three_code
           Scenarios2.spoiled_world 0%nat [Scenarios.logger 0 "m1"]
           (VStr "not a function") [VFun 2] (Some Scenarios.twice_final) 0).
  - reflexivity.
  - reflexivity.
  - reflexivity.
  - intros L HL. apply list_elem_of_singleton in HL. subst L. reflexivity.
Defined.

(** The middleware that empties the array before it awaits its
    continuation: the final handler, which would throw, is not called. *)
Lemma shortened_chain_witness :
  Compose.dispatch Scenarios2.emptying_code
    (Compose.mkComposed 0 (Some (Scenarios.thrower "unreached"))) 1 1%Z
    (mkExec (mkWorld [] [[]]) 0%Z [EvInvoke 0; EvRun 0 0]) =
  Ok (mkExec (mkWorld [] [[]]) 1%Z [EvInvoke 0; EvRun 0 0; EvInvoke 1]) /\
  0%nat = 0%nat.
Proof.
  apply (shortened_chain_skips_final Scenarios2.emptying_code
           (Compose.mkComposed 0 (Some (Scenarios.thrower "unreached")))
           Scenarios.one_world 1
           (mkExec (mkWorld [] [[]]) 0%Z [EvInvoke 0; EvRun 0 0]) 0).
  - apply (awaiting_next Scenarios2.emptying_code _ Scenarios.one_world 0
             (Compose.start Scenarios.one_world) 0%nat Return).
    + constructor.
    + reflexivity.
    + exact I.
    + reflexivity.
  - cbn. lia.
Defined.

(** ** The registry *)

Section Registry.
Context {C : Type} (code : fid -> Middleware C).
Implicit Types (w : World C) (en : Engine).

Lemma deref_alloc_old (xs : list value) w (l : loc) :
  (l < length (heap w))%nat -> deref (snd (alloc xs w)) l = deref w l.
Proof. intros Hl. unfold deref. cbn. rewrite lookup_app_l by exact Hl. reflexivity. Qed.

Lemma deref_alloc_new (xs : list value) w :
  deref (snd (alloc xs w)) (fst (alloc xs w)) = xs.
Proof.
  unfold deref. cbn. rewrite lookup_app_r by lia. rewrite Nat.sub_diag. reflexivity.
Qed.

Lemma deref_store_eq (l : loc) (xs : list value) w :
  (l < length (heap w))%nat -> deref (store l xs w) l = xs.
Proof. intros Hl. unfold deref. cbn. rewrite list_lookup_insert_eq by exact Hl. reflexivity. Qed.

Lemma deref_store_ne (l l' : loc) (xs : list value) w :
  l <> l' -> deref (store l xs w) l' = deref w l'.
Proof. intros Hl. unfold deref. cbn. rewrite list_lookup_insert_ne by exact Hl. reflexivity. Qed.

(** X11: the constructor copies [options.middlewares], element by
    element and without a check, into an array of the engine's own.
    Writing the array that was passed afterwards does not change the
    registry, and registering on the engine does not change the array
    that was passed. *)
Theorem constructor_copies_options (o : loc) (xs : list value) (v : value) w :
  (o < length (heap w))%nat ->
  let en := fst (MiddlewareEngine.new (Some o) w) in
  let w0 := snd (MiddlewareEngine.new (Some o) w) in
  middlewares en <> o /\
  deref w0 (middlewares en) = deref w o /\
  deref w0 o = deref w o /\
  deref (store o xs w0) (middlewares en) = deref w o /\
  deref (state_of (MiddlewareEngine.use en v w0)) o = deref w o /\
  MiddlewareEngine.createMiddlewareEngine (Some o) w = (en, w0).
Proof.
  intros Ho en w0.
  assert (Hen : middlewares en = length (heap w)) by reflexivity.
  assert (Hnew : deref w0 (middlewares en) = deref w o).
  { exact (deref_alloc_new (deref w o) w). }
  assert (Hold : deref w0 o = deref w o).
  { exact (deref_alloc_old (deref w o) w o Ho). }
  split; [rewrite Hen; lia |].
  split; [exact Hnew |].
  split; [exact Hold |].
  split; [rewrite deref_store_ne by (rewrite Hen; lia); exact Hnew |].
  split; [| reflexivity].
  unfold MiddlewareEngine.use. destruct (is_function v); cbn [state_of].
  - rewrite deref_store_ne by (rewrite Hen; lia). exact Hold.
  - exact Hold.
Qed.

(** The chain [dispatch] hands to [composeMiddlewares]. *)
Lemma engine_dispatch_invalid en (fin : option (FinalHandler C))
    (extra : option loc) (fuel : nat) w :
  forallb is_function
    (deref w (middlewares en) ++
     match extra with Some ex => deref w ex | None => [] end) = false ->
  MiddlewareEngine.dispatch code fuel en fin extra w =
    Err (TypeError "Middleware must be a function")
        (Compose.start
           match extra with
           | Some ex => snd (alloc (deref w (middlewares en) ++ deref w ex) w)
           | None => w
           end).
Proof.
  intros Hbad. unfold MiddlewareEngine.dispatch.
  destruct extra as [ex |].
  - pose proof (deref_alloc_new (deref w (middlewares en) ++ deref w ex) w) as Hd.
    destruct (alloc (deref w (middlewares en) ++ deref w ex) w) as [l1 w1] eqn:Ha.
    cbn [fst snd] in *. unfold Compose.composeMiddlewares.
    rewrite Hd, Hbad. reflexivity.
  - rewrite app_nil_r in Hbad. unfold Compose.composeMiddlewares.
    rewrite Hbad. reflexivity.
Qed.

(** X12: [dispatch] validates the whole chain before it calls anything:
    if the registry (which the constructor fills without a check) or the
    extra middlewares hold a value that is not a function, the dispatch
    rejects with the [TypeError] of [composeMiddlewares], no handler is
    called and the context is as it was. *)
Theorem invalid_element_rejects_dispatch en (fin : option (FinalHandler C))
    (extra : option loc) (fuel : nat) w (x : value) :
  x ∈ deref w (middlewares en) ++
      match extra with Some ex => deref w ex | None => [] end ->
  is_function x = false ->
  exists w1,
    MiddlewareEngine.dispatch code fuel en fin extra w =
      Err (TypeError "Middleware must be a function") (Compose.start w1) /\
    ctx w1 = ctx w /\
    trace (state_of (MiddlewareEngine.dispatch code fuel en fin extra w)) = [].
Proof.
  intros Hin Hx.
  assert (Hbad : forallb is_function
                   (deref w (middlewares en) ++
                    match extra with Some ex => deref w ex | None => [] end) = false).
  { apply forallb_false_elem. exists x. auto. }
  rewrite (engine_dispatch_invalid en fin extra fuel w Hbad).
  eexists. split; [reflexivity |]. split; [| reflexivity].
  destruct extra; reflexivity.
Qed.

(** Registering functions one after the other appends them to the
    registry, and touches nothing else. *)
Lemma use_all_functions en (good : list value) :
  forallb is_function good = true ->
  forall w (rest : list value),
    (middlewares en < length (heap w))%nat ->
    exists w1,
      use_all en (good ++ rest) w = use_all en rest w1 /\
      ctx w1 = ctx w /\
      length (heap w1) = length (heap w) /\
      deref w1 (middlewares en) = deref w (middlewares en) ++ good /\
      (forall l, l <> middlewares en -> heap w1 !! l = heap w !! l).
Proof.
  induction good as [| v good IH]; intros Hgood w rest Hlen.
  - exists w. rewrite app_nil_r. auto.
  - cbn [forallb] in Hgood. apply andb_prop in Hgood as [Hv Hgood].
    set (w' := store (middlewares en) (deref w (middlewares en) ++ [v]) w).
    assert (Hlen' : (middlewares en < length (heap w'))%nat).
    { subst w'. cbn. rewrite length_insert. exact Hlen. }
    destruct (IH Hgood w' rest Hlen') as (w1 & Huse & Hctx & Hl & Hd & Hother).
    exists w1. split; [| split; [| split; [| split]]].
    + cbn [app use_all]. unfold MiddlewareEngine.use. rewrite Hv. exact Huse.
    + rewrite Hctx. reflexivity.
    + rewrite Hl. subst w'. cbn. apply length_insert.
    + rewrite Hd. subst w'. rewrite deref_store_eq by exact Hlen.
      rewrite <- app_assoc. reflexivity.
    + intros l Hne. rewrite (Hother l Hne). subst w'. cbn.
      apply list_lookup_insert_ne. congruence.
Qed.

(** X13: a new engine, on which functions are registered one after the
    other, holds the elements it was constructed with followed by the
    functions in the order of their registration; [getMiddlewares] returns
    that list in a new array. *)
Theorem registration_round_trip (options : option loc) (vs : list value) w :
  forallb is_function vs = true ->
  let en := fst (MiddlewareEngine.new options w) in
  let w0 := snd (MiddlewareEngine.new options w) in
  let seed := match options with Some o => deref w o | None => [] end in
  exists w1,
    use_all en vs w0 = Ok w1 /\
    ctx w1 = ctx w /\
    deref w1 (middlewares en) = seed ++ vs /\
    fst (MiddlewareEngine.getMiddlewares en w1) <> middlewares en /\
    deref (snd (MiddlewareEngine.getMiddlewares en w1))
          (fst (MiddlewareEngine.getMiddlewares en w1)) = seed ++ vs.
Proof.
  intros Hvs en w0 seed.
  assert (Hen : middlewares en = length (heap w)) by reflexivity.
  assert (Hlen : (middlewares en < length (heap w0))%nat).
  { rewrite Hen. subst w0. unfold MiddlewareEngine.new, alloc. cbn.
    rewrite length_app. cbn. lia. }
  assert (Hseed : deref w0 (middlewares en) = seed).
  { exact (deref_alloc_new seed w). }
  destruct (use_all_functions en vs Hvs w0 [] Hlen)
    as (w1 & Huse & Hctx & Hl & Hd & _).
  rewrite app_nil_r in Huse. cbn [use_all] in Huse.
  exists w1. split; [exact Huse |].
  split; [rewrite Hctx; reflexivity |].
  split; [rewrite Hd, Hseed; reflexivity |].
  split.
  - unfold MiddlewareEngine.getMiddlewares, alloc. cbn [fst]. lia.
  - unfold MiddlewareEngine.getMiddlewares. rewrite deref_alloc_new, Hd, Hseed.
    reflexivity.
Qed.

(** X14: a registration that throws ends the sequence of registrations:
    the functions registered before it stay registered, in their order;
    the value that is not a function and the values after it are not
    registered. *)
Theorem failed_registration_keeps_earlier en (good : list value) (bad : value)
    (rest : list value) w :
  (middlewares en < length (heap w))%nat ->
  forallb is_function good = true ->
  is_function bad = false ->
  exists w1,
    use_all en (good ++ bad :: rest) w =
      Err (TypeError "Middleware must be a function") w1 /\
    ctx w1 = ctx w /\
    deref w1 (middlewares en) = deref w (middlewares en) ++ good.
Proof.
  intros Hlen Hgood Hbad.
  destruct (use_all_functions en good Hgood w (bad :: rest) Hlen)
    as (w1 & Huse & Hctx & _ & Hd & _).
  exists w1. split; [| split; [exact Hctx | exact Hd]].
  rewrite Huse. cbn [use_all]. unfold MiddlewareEngine.use. rewrite Hbad.
  reflexivity.
Qed.
End Registry.

(** An engine constructed from an array of two middlewares. *)
Lemma constructor_copies_witness :
  middlewares (mkEngine 1) <> 0%nat /\
  deref (Scenarios.world_of [[VFun 0; VFun 1]; [VFun 0; VFun 1]]) 1
    = [VFun 0; VFun 1] /\
  deref (Scenarios.world_of [[VFun 0; VFun 1]; [VFun 0; VFun 1]]) 0
    = [VFun 0; VFun 1] /\
  deref (store 0 [VStr "junk"]
           (Scenarios.world_of [[VFun 0; VFun 1]; [VFun 0; VFun 1]])) 1
    = [VFun 0; VFun 1] /\
  deref (state_of (MiddlewareEngine.use (mkEngine 1) (VFun 5)
                     (Scenarios.world_of [[VFun 0; VFun 1]; [VFun 0; VFun 1]]))) 0
    = [VFun 0; VFun 1] /\
  MiddlewareEngine.createMiddlewareEngine (Some 0%nat)
      (Scenarios.world_of [[VFun 0; VFun 1]]) =
    (mkEngine 1, Scenarios.world_of [[VFun 0; VFun 1]; [VFun 0; VFun 1]]).
Proof.
  refine (constructor_copies_options 0%nat [VStr "junk"] (VFun 5)
            (Scenarios.world_of [[VFun 0; VFun 1]]) _).
  cbn. lia.
Defined.

(** Extra middlewares that hold a string: the dispatch rejects before the
    registered middleware is called. *)
Lemma invalid_element_witness :
  exists w1,
    MiddlewareEngine.dispatch Scenarios.one_code 3 (mkEngine 0) None (Some 1%nat)
        (Scenarios.world_of [[VFun 0]; [VStr "not a function"]]) =
      Err (TypeError "Middleware must be a function") (Compose.start w1) /\
    ctx w1 = [] /\
    trace (state_of (MiddlewareEngine.dispatch Scenarios.one_code 3 (mkEngine 0)
                       None (Some 1%nat)
                       (Scenarios.world_of [[VFun 0]; [VStr "not a function"]])))
      = [].
Proof.
  apply (invalid_element_rejects_dispatch Scenarios.one_code (mkEngine 0) None
           (Some 1%nat) 3 (Scenarios.world_of [[VFun 0]; [VStr "not a function"]])
           (VStr "not a function")).
  - apply list_elem_of_In. cbn. tauto.
  - reflexivity.
Defined.

(** 'should register middlewares in order', from an empty engine. *)
Lemma registration_round_trip_witness :
  exists w1,
    use_all (mkEngine 0) [VFun 0; VFun 1] (Scenarios.world_of [[]]) = Ok w1 /\
    ctx w1 = [] /\
    deref w1 0 = [VFun 0; VFun 1] /\
    fst (MiddlewareEngine.getMiddlewares (mkEngine 0) w1) <> 0%nat /\
    deref (snd (MiddlewareEngine.getMiddlewares (mkEngine 0) w1))
          (fst (MiddlewareEngine.getMiddlewares (mkEngine 0) w1))
      = [VFun 0; VFun 1].
Proof.
  refine (registration_round_trip None [VFun 0; VFun 1] (Scenarios.world_of []) _).
  reflexivity.
Defined.

(** A registration of [null] between two registrations of functions. *)
Lemma failed_registration_witness :
  exists w1,
    use_all (mkEngine 0) [VFun 1; VNull; VFun 2] Scenarios.one_world =
      Err (TypeError "Middleware must be a function") w1 /\
    ctx w1 = [] /\
    deref w1 0 = [VFun 0; VFun 1].
Proof.
  apply (failed_registration_keeps_earlier (mkEngine 0) [VFun 1] VNull [VFun 2]
           Scenarios.one_world).
  - cbn. lia.
  - reflexivity.
  - reflexivity.
Defined.

(** * The URL of a request *)

Section BuildUrlProperties.
Import FetchAdapter.
Variable js_String : value -> string.
Variable urlencode : string -> string.

Lemma strip_trailing_slash_app (b : string) :
  strip_trailing_slash (b ++ "/") = b.
Proof.
  induction b as [| a b IH]; [reflexivity |].
  change (String a b ++ "/")%string with (String a (b ++ "/")).
  destruct b as [| a' b']; [reflexivity |].
  change (String a' b' ++ "/")%string with (String a' (b' ++ "/")) in *.
  change (strip_trailing_slash (String a (String a' (b' ++ "/"))))
    with (String a (strip_trailing_slash (String a' (b' ++ "/")))).
  rewrite IH. reflexivity.
Qed.

Lemma strip_trailing_slash_id (b : string) :
  (forall b', b <> (b' ++ "/")%string) -> strip_trailing_slash b = b.
Proof.
  induction b as [| a b IH]; intros Hno; [reflexivity |].
  destruct b as [| a' b'].
  - cbn. destruct (Ascii.eqb a "/") eqn:Ha; [| reflexivity].
    apply Ascii.eqb_eq in Ha. subst a. exfalso. apply (Hno EmptyString). reflexivity.
  - change (strip_trailing_slash (String a (String a' b')))
      with (String a (strip_trailing_slash (String a' b'))).
    rewrite IH; [reflexivity |].
    intros b0 Hb0. apply (Hno (String a b0)). cbn. rewrite Hb0. reflexivity.
Qed.

Lemma strip_leading_slash_id (p : string) :
  startsWith p "/" = false -> strip_leading_slash p = p.
Proof.
  destruct p as [| a p]; [reflexivity |]. unfold startsWith.
  change (String.prefix "/" (String a p))
    with (if ascii_dec "/" a then String.prefix EmptyString p else false).
  destruct (ascii_dec "/" a) as [<- | Hne].
  - destruct p; intros H; discriminate H.
  - intros _. unfold strip_leading_slash.
    destruct (Ascii.eqb a "/") eqn:Ha; [| reflexivity].
    apply Ascii.eqb_eq in Ha. congruence.
Qed.

Lemma append_not_empty (a b : string) :
  a <> EmptyString -> (a ++ b)%string <> EmptyString.
Proof. destruct a; [congruence | discriminate]. Qed.

Lemma append_entries_filter (es : list (string * value))
    (sp : list (string * string)) :
  append_entries js_String es sp =
    sp ++ List.map (fun kv => (fst kv, js_String (snd kv)))
            (List.filter (fun kv => defined (snd kv)) es).
Proof.
  revert sp. induction es as [| [k v] es IH]; intros sp; cbn.
  - rewrite app_nil_r. reflexivity.
  - rewrite IH. destruct (defined v); cbn; [| reflexivity].
    rewrite <- app_assoc. reflexivity.
Qed.

Lemma filter_defined_idem (es : list (string * value)) :
  List.filter (fun kv => defined (snd kv))
    (List.filter (fun kv => defined (snd kv)) es) =
  List.filter (fun kv => defined (snd kv)) es.
Proof.
  induction es as [| [k v] es IH]; [reflexivity |]. cbn.
  destruct (defined v) eqn:Hv; cbn; [rewrite Hv, IH |]; auto.
Qed.

Lemma toString_not_empty (p : string * string) (sp : list (string * string)) :
  toString urlencode (p :: sp) <> EmptyString.
Proof.
  unfold toString. cbn [List.map String.concat].
  assert (Hx : (urlencode (fst p) ++ "=" ++ urlencode (snd p))%string <> EmptyString).
  { destruct (urlencode (fst p)); discriminate. }
  destruct (List.map _ sp); [exact Hx | apply append_not_empty; exact Hx].
Qed.

Lemma string_length_append (a b : string) :
  String.length (a ++ b) = (String.length a + String.length b)%nat.
Proof. induction a as [| x a IH]; [reflexivity |]. cbn. rewrite IH. reflexivity. Qed.

Lemma includes_app (a b : string) (c : ascii) :
  includes (a ++ b) c = includes a c || includes b c.
Proof.
  induction a as [| x a IH]; [reflexivity |]. cbn. rewrite IH.
  apply orb_assoc.
Qed.

(** X15: one slash at the end of the base URL makes no difference: a base
    that does not end in a slash and the same base followed by a slash
    give the same URL, for every request. *)
Theorem base_trailing_slash_irrelevant (config : RequestConfig) (base : string) :
  base <> EmptyString ->
  (forall b', base <> (b' ++ "/")%string) ->
  buildUrl js_String urlencode config (Some (base ++ "/")%string) =
  buildUrl js_String urlencode config (Some base).
Proof.
  intros Hne Hno. unfold buildUrl.
  rewrite strip_trailing_slash_app, (strip_trailing_slash_id base Hno).
  replace (String.eqb (base ++ "/") EmptyString) with false
    by (symmetry; apply String.eqb_neq; apply append_not_empty; exact Hne).
  replace (String.eqb base EmptyString) with false
    by (symmetry; apply String.eqb_neq; exact Hne).
  reflexivity.
Qed.

(** X16: one slash at the start of a relative path makes no difference
    when there is a base URL: the path and the path after a slash give
    the same URL. *)
Theorem path_leading_slash_irrelevant (path base : string)
    (ps : option (list (string * value))) :
  base <> EmptyString ->
  startsWith path "/" = false ->
  startsWith path "http://" = false ->
  startsWith path "https://" = false ->
  buildUrl js_String urlencode (mkRequestConfig ("/" ++ path) ps) (Some base) =
  buildUrl js_String urlencode (mkRequestConfig path ps) (Some base).
Proof.
  intros Hne Hslash Hhttp Hhttps. unfold buildUrl. cbn [url params].
  assert (H1 : startsWith ("/" ++ path) "http://" = false) by reflexivity.
  assert (H2 : startsWith ("/" ++ path) "https://" = false) by reflexivity.
  assert (H3 : strip_leading_slash ("/" ++ path) = path) by reflexivity.
  rewrite H1, H2, H3, Hhttp, Hhttps, (strip_leading_slash_id path Hslash).
  replace (String.eqb base EmptyString) with false
    by (symmetry; apply String.eqb_neq; exact Hne).
  reflexivity.
Qed.

(** X17: parameters whose value is [undefined] or [null] are left out:
    the URL is that of the request without them, and of the request with
    no parameters at all when there is no other. *)
Theorem nullish_params_ignored (u : string) (es : list (string * value))
    (base : option string) :
  buildUrl js_String urlencode (mkRequestConfig u (Some es)) base =
    buildUrl js_String urlencode
      (mkRequestConfig u (Some (List.filter (fun kv => defined (snd kv)) es))) base /\
  (List.filter (fun kv => defined (snd kv)) es = [] ->
   buildUrl js_String urlencode (mkRequestConfig u (Some es)) base =
     buildUrl js_String urlencode (mkRequestConfig u None) base).
Proof.
  unfold buildUrl. cbn [url params].
  rewrite !append_entries_filter, filter_defined_idem.
  destruct (List.filter (fun kv => defined (snd kv)) es) as [| kv fs] eqn:Hf.
  - destruct (0 <? length es)%nat; split; try intros _; reflexivity.
  - assert (Hes : (0 <? length es)%nat = true).
    { destruct es; [discriminate Hf | reflexivity]. }
    rewrite Hes. split; [reflexivity | discriminate].
Qed.

(** X18: the base URL is not used when it is the empty string, or when
    the URL of the request starts with [http://] or [https://]. *)
Theorem absolute_url_ignores_base (config : RequestConfig) (base : string) :
  base = EmptyString \/
  startsWith (url config) "http://" = true \/
  startsWith (url config) "https://" = true ->
  buildUrl js_String urlencode config (Some base) =
  buildUrl js_String urlencode config None.
Proof.
  intros H. unfold buildUrl.
  destruct H as [-> | [-> | ->]]; cbn [String.eqb negb andb]; try reflexivity.
  - destruct (negb (String.eqb base EmptyString)); reflexivity.
  - destruct (negb (String.eqb base EmptyString)), (negb (startsWith _ "http://"));
      reflexivity.
Qed.

(** X19: a request with a parameter whose value is neither [undefined]
    nor [null] gets a URL with a question mark in it: the query is
    appended after [?], or after [&] when the URL has a [?] already. *)
Theorem defined_param_gives_query (config : RequestConfig)
    (es : list (string * value)) (kv : string * value) (base : option string) :
  params config = Some es ->
  kv ∈ es ->
  defined (snd kv) = true ->
  includes (buildUrl js_String urlencode config base) "?" = true /\
  buildUrl js_String urlencode config base <>
    buildUrl js_String urlencode (mkRequestConfig (url config) None) base.
Proof.
  intros Hps Hin Hdef. unfold buildUrl. rewrite Hps. cbn [url params].
  set (u1 := match base with
             | Some b =>
                 if negb (String.eqb b EmptyString)
                    && negb (startsWith (url config) "http://")
                    && negb (startsWith (url config) "https://")
                 then ((strip_trailing_slash b ++ "/") ++
                       strip_leading_slash (url config))%string
                 else url config
             | None => url config
             end).
  assert (Hes : (0 <? length es)%nat = true).
  { destruct es; [inversion Hin | reflexivity]. }
  rewrite Hes, append_entries_filter. cbn [app].
  assert (Hf : List.filter (fun kv => defined (snd kv)) es <> []).
  { intros Hnil.
    assert (Hin' : List.In kv (List.filter (fun kv => defined (snd kv)) es)).
    { apply filter_In. split; [apply list_elem_of_In; exact Hin | exact Hdef]. }
    rewrite Hnil in Hin'. exact Hin'. }
  destruct (List.filter (fun kv => defined (snd kv)) es) as [| p fs];
    [congruence |].
  cbn [List.map].
  set (qs := toString urlencode _).
  assert (Hqs : qs <> EmptyString) by apply toString_not_empty.
  replace (String.eqb qs EmptyString) with false
    by (symmetry; apply String.eqb_neq; exact Hqs).
  cbn [negb]. split.
  - rewrite includes_app. destruct (includes u1 "?") eqn:Hq; [reflexivity |].
    cbn. reflexivity.
  - intros Heq.
    assert (Hlen : String.length (u1 ++ (if includes u1 "?" then "&" else "?") ++ qs)
                   = String.length u1) by (rewrite Heq; reflexivity).
    rewrite string_length_append in Hlen.
    destruct (includes u1 "?"); cbn [String.append String.length] in Hlen; lia.
Qed.
End BuildUrlProperties.

(** The base [api], with and without a slash at its end. *)
Lemma base_trailing_slash_witness :
  FetchAdapter.buildUrl (fun _ => "1"%string) (fun s => s)
    (FetchAdapter.mkRequestConfig "/users" None) (Some "api/"%string) =
  FetchAdapter.buildUrl (fun _ => "1"%string) (fun s => s)
    (FetchAdapter.mkRequestConfig "/users" None) (Some "api"%string).
Proof.
  apply (base_trailing_slash_irrelevant (fun _ => "1"%string) (fun s => s)
           (FetchAdapter.mkRequestConfig "/users" None) "api").
  - discriminate.
  - intros b' H.
    repeat (destruct b' as [| ? b']; cbn in H;
            [discriminate H | injection H as _ H]).
    destruct b'; discriminate H.
Defined.

(** The path [users], with and without a slash at its start. *)
Lemma path_leading_slash_witness :
  FetchAdapter.buildUrl (fun _ => "1"%string) (fun s => s)
    (FetchAdapter.mkRequestConfig "/users" None) (Some "api"%string) =
  FetchAdapter.buildUrl (fun _ => "1"%string) (fun s => s)
    (FetchAdapter.mkRequestConfig "users" None) (Some "api"%string).
Proof.
  apply (path_leading_slash_irrelevant (fun _ => "1"%string) (fun s => s)
           "users" "api" None).
  - discriminate.
  - reflexivity.
  - reflexivity.
  - reflexivity.
Defined.

(** A request whose two parameters are [null] and [undefined]. *)
Lemma nullish_params_witness :
  FetchAdapter.buildUrl (fun _ => "1"%string) (fun s => s)
    (FetchAdapter.mkRequestConfig "/users"
       (Some [("a"%string, VNull); ("b"%string, VUndefined)])) None =
  FetchAdapter.buildUrl (fun _ => "1"%string) (fun s => s)
    (FetchAdapter.mkRequestConfig "/users" None) None.
Proof.
  apply (nullish_params_ignored (fun _ => "1"%string) (fun s => s) "/users"
           [("a"%string, VNull); ("b"%string, VUndefined)] None).
  reflexivity.
Defined.

(** An absolute URL with a base URL. *)
Lemma absolute_url_witness :
  FetchAdapter.buildUrl (fun _ => "1"%string) (fun s => s)
    (FetchAdapter.mkRequestConfig "https://h/users" None) (Some "api"%string) =
  FetchAdapter.buildUrl (fun _ => "1"%string) (fun s => s)
    (FetchAdapter.mkRequestConfig "https://h/users" None) None.
Proof.
  apply (absolute_url_ignores_base (fun _ => "1"%string) (fun s => s)
           (FetchAdapter.mkRequestConfig "https://h/users" None) "api").
  right. right. reflexivity.
Defined.

(** [params: { page: 1 }] *)
Lemma defined_param_witness :
  FetchAdapter.includes
    (FetchAdapter.buildUrl (fun _ => "1"%string) (fun s => s)
       (FetchAdapter.mkRequestConfig "/users" (Some [("page"%string, VNum 1)]))
       (Some "api"%string)) "?" = true /\
  FetchAdapter.buildUrl (fun _ => "1"%string) (fun s => s)
    (FetchAdapter.mkRequestConfig "/users" (Some [("page"%string, VNum 1)]))
    (Some "api"%string) <>
  FetchAdapter.buildUrl (fun _ => "1"%string) (fun s => s)
    (FetchAdapter.mkRequestConfig "/users" None) (Some "api"%string).
Proof.
  apply (defined_param_gives_query (fun _ => "1"%string) (fun s => s)
           (FetchAdapter.mkRequestConfig "/users" (Some [("page"%string, VNum 1)]))
           [("page"%string, VNum 1)] ("page"%string, VNum 1) (Some "api"%string)).
  - reflexivity.
  - apply list_elem_of_singleton. reflexivity.
  - reflexivity.
Defined.
